(** * The enum registry of package [kit] and the generated stringer of [ki.Flags]

    A shallow embedding of [src/ki/flags_string.go] and of the enum part of
    [src/kit/enums.go], with the properties of the two conversions
    (ordinal to name, name to ordinal), of the bit-flag codec built on
    them, and of the registry that stores the per-type properties. *)

From Stdlib Require Import ZArith Lia List Bool Ascii String DecimalString Sorted.
From Stdlib Require DecimalPos DecimalZ.
From stdpp Require Import gmap strings list fin_maps.

Local Open Scope Z_scope.

(** ** Machine integers *)

Module Int.

(** A value of a signed [w]-bit Go integer type is a [Z] of the range
    [-2^(w-1) .. 2^(w-1)-1]; a conversion to that type keeps the low [w]
    bits and reads them in two's complement. *)
Definition wrap (w z : Z) : Z :=
  let r := z mod 2 ^ w in
  if r <? 2 ^ (w - 1) then r else r - 2 ^ w.

Definition int64 (z : Z) : Z := wrap 64 z.

End Int.

(** ** Strings (package [strings], [strconv], and Go's slicing) *)

Module Str.

(** [s[a:b]] on a Go string. *)
Definition slice (s : string) (a b : nat) : string :=
  String.substring a (b - a) s.

(** [strconv.FormatInt(i, 10)]. *)
Definition FormatInt10 (i : Z) : string :=
  NilZero.string_of_int (Z.to_int i).

(** [strings.HasPrefix(s, prefix)]. *)
Definition HasPrefix (s prefix : string) : bool := String.prefix prefix s.

(** [strings.TrimPrefix(s, prefix)]. *)
Definition TrimPrefix (s prefix : string) : string :=
  if HasPrefix s prefix
  then slice s (String.length prefix) (String.length s)
  else s.

(** [strings.ToLower] on the bytes of an ASCII string: the letters [A-Z]
    move to [a-z], every other byte stays. *)
Definition lower_byte (c : ascii) : ascii :=
  let n := nat_of_ascii c in
  if ((65 <=? n) && (n <=? 90))%nat then ascii_of_nat (n + 32) else c.

Fixpoint ToLower (s : string) : string :=
  match s with
  | EmptyString => EmptyString
  | String c r => String (lower_byte c) (ToLower r)
  end.

(** [strings.Split(s, sep)] for a separator of one byte: the pieces of [s]
    between the occurrences of [sep], one more than there are occurrences. *)
Fixpoint Split (s : string) (sep : ascii) : list string :=
  match s with
  | EmptyString => [EmptyString]
  | String c r =>
      if Ascii.eqb c sep then EmptyString :: Split r sep
      else match Split r sep with
           | h :: t => String c h :: t
           | [] => [String c EmptyString]
           end
  end.

Fixpoint contains_byte (c : ascii) (s : string) : bool :=
  match s with
  | EmptyString => false
  | String d r => Ascii.eqb d c || contains_byte c r
  end.

End Str.

(** ** The code that [stringer] generates for an enum type

    [flags_string.go] is the instance for [Flags]; the same two methods are
    generated for every type, over that type's name and its two tables. *)

Record EnumType := {
  ShortName : string;      (* what [ShortTypeName] gives: [pkg.Type] *)
  TypeName : string;       (* the bare type name printed by [String] *)
  Bits : Z;                (* width of the underlying signed integer *)
  HasString : bool;        (* the type implements [fmt.Stringer] *)
  HasFromString : bool;    (* the type has the [FromString] method *)
  name_tbl : string;       (* [_T_name] *)
  index_tbl : list nat     (* [_T_index] *)
}.

Definition error := option string.

Module Stringer.

Section Generated.
Variable T : EnumType.

(** [_T_name[_T_index[j]:_T_index[j+1]]] *)
Definition entry (j : nat) : string :=
  Str.slice (name_tbl T) (nth j (index_tbl T) 0%nat) (nth (S j) (index_tbl T) 0%nat).

(** [len(_T_index)-1] *)
Definition count : nat := (List.length (index_tbl T) - 1)%nat.

(** [func (i T) String() string] *)
Definition String_ (i : Z) : string :=
  if (i <? 0) || (i >=? Z.of_nat count)
  then TypeName T +:+ "(" +:+ Str.FormatInt10 i +:+ ")"
  else entry (Z.to_nat i).

(** The loop of [FromString] from index [j], with [fuel] iterations left:
    the first index whose table entry equals [s]. *)
Fixpoint FromString_loop (s : string) (j fuel : nat) : option nat :=
  match fuel with
  | O => None
  | S fuel' =>
      if String.eqb s (entry j) then Some j
      else FromString_loop s (S j) fuel'
  end.

(** [func (i *T) FromString(s string) error]: the receiver's new value and
    the error. *)
Definition FromString (recv : Z) (s : string) : Z * error :=
  match FromString_loop s 0 count with
  | Some j => (Z.of_nat j, None)
  | None =>
      (recv, Some ("String: " +:+ s +:+ " is not a valid option for type: " +:+ TypeName T))
  end.

(** The canonical names, in ordinal order. *)
Definition names : list string := map entry (seq 0 count).

End Generated.

End Stringer.

(** ** [ki.Flags] *)

Definition _Flags_name : string :=
  "IsFieldHasKiFieldsHasNoKiFieldsUpdatingOnlySelfUpdateNodeAddedNodeCopiedNodeMovedNodeDeletedNodeDestroyedChildAddedChildMovedChildDeletedChildrenDeletedFieldUpdatedPropUpdatedFlagsN".

Definition _Flags_index : list nat :=
  [0; 7; 18; 31; 39; 53; 62; 72; 81; 92; 105; 115; 125; 137; 152; 164; 175; 181]%nat.

(** The declaration of [Flags] is outside the two files: the width of 32
    bits is taken for it, and only the conversion of an integer that does
    not fit depends on the width. *)
Definition Flags : EnumType := {|
  ShortName := "ki.Flags";
  TypeName := "Flags";
  Bits := 32;
  HasString := true;
  HasFromString := true;
  name_tbl := _Flags_name;
  index_tbl := _Flags_index
|}.

Definition Flags_String (i : Z) : string := Stringer.String_ Flags i.
Definition Flags_FromString (recv : Z) (s : string) : Z * error :=
  Stringer.FromString Flags recv s.

Definition Flags_names : list string :=
  ["IsField"; "HasKiFields"; "HasNoKiFields"; "Updating"; "OnlySelfUpdate";
   "NodeAdded"; "NodeCopied"; "NodeMoved"; "NodeDeleted"; "NodeDestroyed";
   "ChildAdded"; "ChildMoved"; "ChildDeleted"; "ChildrenDeleted";
   "FieldUpdated"; "PropUpdated"; "FlagsN"].

(** ** Package [bitflag] *)

Module bitflag.

(** Modelled from the spec: package [bitflag] is imported by [enums.go] and
    is not among the source files.  The spec has a bit-flag value as a
    64-bit signed integer whose bit positions correspond one-to-one with the
    ordinals, a decode that ORs an ordinal's bit into the accumulator and
    an encode that tests whether the ordinal's bit is set; [mask] is the
    [int64] with only the bit of [flag]. *)
Definition mask (flag : Z) : Z := Int.int64 (Z.shiftl 1 flag).

Definition Has (bits flag : Z) : bool := negb (Z.land bits (mask flag) =? 0).

Definition Set_ (bits flag : Z) : Z := Z.lor bits (mask flag).

End bitflag.

(** ** Reflection, as far as [enums.go] uses it *)

(** An enum held in an [interface{}] or a [reflect.Value]: the enum itself,
    or a pointer to a variable of the enum type, whose current content is
    [vInt].  A function that writes through the pointer returns the value
    with the new content. *)
Record Value := { vPtr : bool; vType : EnumType; vInt : Z }.

(** [reflect.New(et)]: a pointer to a fresh zero of type [et]. *)
Definition New (et : EnumType) : Value := {| vPtr := true; vType := et; vInt := 0 |}.

(** [v.Elem()] and [NonPtrValue(v)]. *)
Definition Elem (v : Value) : Value := {| vPtr := false; vType := vType v; vInt := vInt v |}.

Definition store (v : Value) (i : Z) : Value :=
  {| vPtr := vPtr v; vType := vType v; vInt := i |}.

(** Modelled from the spec: [ShortTypeName] is one of the type introspection
    helpers outside the source files; it computes the short qualified type
    identifier under which the registry keys a type. *)
Definition ShortTypeName (typ : EnumType) : string := ShortName typ.

(** ** To and from [int64] *)

Definition EnumIfaceToInt64 (eval : Value) : Z := Int.int64 (vInt eval).

Definition SetEnumValueFromInt64 (eval : Value) (ival : Z) : Value * error :=
  if negb (vPtr eval)
  then (eval, Some "kit.SetEnumValueFromInt64: must pass a pointer value to the enum")
  else (store eval (Int.wrap (Bits (vType eval)) ival), None).

Definition EnumIfaceFromInt64 (ival : Z) (typ : EnumType) : Value :=
  let evn := New typ in
  Elem (fst (SetEnumValueFromInt64 evn ival)).

(** ** To and from strings *)

Definition EnumIfaceToString (eval : Value) : string :=
  if HasString (vType eval)
  then Stringer.String_ (vType eval) (vInt eval)
  else "".

Definition EnumInt64ToString (ival : Z) (typ : EnumType) : string :=
  EnumIfaceToString (EnumIfaceFromInt64 ival typ).

(** [meth.Call(args)] runs [FromString] on the pointee; what the method
    returns is dropped and the function ends in [return nil]. *)
Definition SetEnumValueFromString (eval : Value) (str : string) : Value * error :=
  if negb (vPtr eval)
  then (eval, Some "kit.SetEnumValueFromString -- you must pass a pointer enum")
  else if negb (HasFromString (vType eval))
  then (eval, Some "kit.SetEnumValueFromString: stringer-generated FromString() method not found")
  else
    let rv := Stringer.FromString (vType eval) (vInt eval) str in
    (store eval (fst rv), None).

Definition SetEnumIfaceFromString (eptr : Value) (str : string) : error :=
  snd (SetEnumValueFromString eptr str).

(** ** Bit flags *)

(** One turn of the loop of [BitFlagsToString]. *)
Definition BitFlagsToString_step (bflg : Z) (et : EnumType) (str : string) (i : Z) : string :=
  if bitflag.Has bflg i then
    let evs := EnumInt64ToString i et in
    if String.eqb str "" then evs else str +:+ "|" +:+ evs
  else str.

Definition BitFlagsToString (bflg : Z) (en : Value) : string :=
  let et := vType en in
  let n := EnumIfaceToInt64 en in
  foldl (BitFlagsToString_step bflg et) "" (seqZ 0 n).

(** One turn of the loop of [BitFlagsTypeFromString]; the state is the
    scratch enum [evv], the accumulator [*bflg] and [err]. *)
Definition BitFlagsTypeFromString_step (st : Value * Z * error) (flg : string)
  : Value * Z * error :=
  let '(evv, bflg, _) := st in
  let '(evv', err) := SetEnumValueFromString evv flg in
  match err with
  | None => (evv', bitflag.Set_ bflg (EnumIfaceToInt64 evv'), err)
  | Some _ => (evv', bflg, err)
  end.

(** The accumulator after the call, and the error returned. *)
Definition BitFlagsTypeFromString (bflg : Z) (str : string) (et : EnumType) (n : Z)
  : Z * error :=
  let flgs := Str.Split str "|" in
  let evv := New et in
  let '(_, bflg', err) := foldl BitFlagsTypeFromString_step (evv, bflg, None) flgs in
  (bflg', err).

Definition BitFlagsFromString (bflg : Z) (str : string) (en : Value) : Z * error :=
  let et := vType en in
  let n := EnumIfaceToInt64 en in
  BitFlagsTypeFromString bflg str et n.

(** ** The registry *)

(** The values a property holds.  [PCustom] stands for any other setting
    of a caller. *)
Inductive PropVal :=
  | PInt64 (n : Z)
  | PBool (b : bool)
  | PAltStrings (alts : gmap Z string)
  | PCustom (s : string).

Record EnumValue := { Name : string; Value_ : Z; Type_ : EnumType }.

(** A Go map is [nil] ([None]) until it is made; reading a [nil] map finds
    nothing, writing to it panics. *)
Record EnumRegistry := {
  Enums : option (gmap string EnumType);
  Props : option (gmap string (gmap string PropVal));
  Vals : option (gmap string (list EnumValue))
}.

(** The zero value of the registry, as [var Enums EnumRegistry] has it. *)
Definition zero_registry : EnumRegistry :=
  {| Enums := None; Props := None; Vals := None |}.

Definition map_get {V} (m : option (gmap string V)) (k : string) : option V :=
  match m with Some m' => m' !! k | None => None end.

(** [m[k] = v]; [None] is the panic on a [nil] map. *)
Definition map_put {V} (m : option (gmap string V)) (k : string) (v : V)
  : option (gmap string V) :=
  match m with Some m' => Some (<[k := v]> m') | None => None end.

(** Modelled from the spec: [ToInt] and [ToBool] are type introspection
    helpers outside the source files; they coerce a loosely-typed value to
    int and to bool, and report whether they could. *)
Definition ToInt (it : option PropVal) : Z * bool :=
  match it with
  | Some (PInt64 n) => (n, true)
  | Some (PBool b) => (if b then 1 else 0, true)
  | _ => (0, false)
  end.

Definition ToBool (it : option PropVal) : bool * bool :=
  match it with
  | Some (PBool b) => (b, true)
  | Some (PInt64 n) => (negb (n =? 0), true)
  | _ => (false, false)
  end.

Module Registry.

(** [tr.Properties(enumName)]: the property map of the type, made and
    stored first when there is none. *)
Definition Properties (tr : EnumRegistry) (enumName : string)
  : option (EnumRegistry * gmap string PropVal) :=
  match map_get (Props tr) enumName with
  | Some tp => Some (tr, tp)
  | None =>
      ps ← map_put (Props tr) enumName ∅;
      Some ({| Enums := Enums tr; Props := Some ps; Vals := Vals tr |}, ∅)
  end.

(** [tp[key] = val] on the map that [tr.Props[enumName]] refers to. *)
Definition set_prop (tr : EnumRegistry) (enumName key : string) (val : PropVal)
  : option EnumRegistry :=
  tp ← map_get (Props tr) enumName;
  ps ← map_put (Props tr) enumName (<[key := val]> tp);
  Some {| Enums := Enums tr; Props := Some ps; Vals := Vals tr |}.

Definition Prop_ (tr : EnumRegistry) (enumName propKey : string) : option PropVal :=
  match map_get (Props tr) enumName with
  | None => None
  | Some tp => tp !! propKey
  end.

Definition AltStrings (tr : EnumRegistry) (enumName : string) : option (gmap Z string) :=
  match Prop_ tr enumName "AltStrings" with
  | Some (PAltStrings m) => Some m
  | _ => None
  end.

(** Modelled from the spec: [ShortTypeName] is outside the source files.
    [reflect.TypeOf(eval)] is the type of the enum when [eval] is an enum,
    and then the properties are read under the short name of that type; when
    [eval] is a pointer to an enum it is the pointer type, whose identifier
    is the key of no enum type, and the registry has nothing under it. *)
Definition TypeOf_Prop (tr : EnumRegistry) (eval : Value) (propKey : string)
  : option PropVal :=
  if vPtr eval then None else Prop_ tr (ShortTypeName (vType eval)) propKey.

(** [reflect.TypeOf(eval)] is taken as it is: given a pointer, [NVals]
    finds no count and returns 0. *)
Definition NVals (tr : EnumRegistry) (eval : Value) : Z :=
  fst (ToInt (TypeOf_Prop tr eval "N")).

Definition IsBitFlag (tr : EnumRegistry) (typ : EnumType) : bool :=
  fst (ToBool (Prop_ tr (ShortTypeName typ) "BitFlag")).

(** [None] is the panic of a write to a [nil] map, which takes a registry
    made by hand with [Enums] set and [Props] not.  The line that
    [log.Printf] writes for a bit-flag type of 64 or more values is no part
    of the state. *)
Definition AddEnum (tr : EnumRegistry) (en : Value) (bitFlag : bool)
    (props : option (gmap string PropVal)) : option (EnumRegistry * EnumType) :=
  let tr :=
    match Enums tr with
    | None => {| Enums := Some ∅; Props := Some ∅; Vals := Some ∅ |}
    | Some _ => tr
    end in
  let typ := vType en in
  let n := EnumIfaceToInt64 en in
  let snm := ShortTypeName typ in
  es ← map_put (Enums tr) snm typ;
  let tr := {| Enums := Some es; Props := Props tr; Vals := Vals tr |} in
  tr ← match props with
       | Some p =>
           ps ← map_put (Props tr) snm p;
           Some {| Enums := Enums tr; Props := Some ps; Vals := Vals tr |}
       | None => Some tr
       end;
  '(tr, _) ← Properties tr snm;
  tr ← set_prop tr snm "N" (PInt64 n);
  tr ← (if bitFlag then
          '(tr, _) ← Properties tr snm;
          set_prop tr snm "BitFlag" (PBool true)
        else Some tr);
  Some (tr, typ).

Definition AddEnumAltLower (tr : EnumRegistry) (en : Value) (bitFlag : bool)
    (props : option (gmap string PropVal)) (prefix : string)
  : option (EnumRegistry * EnumType) :=
  '(tr, typ) ← AddEnum tr en bitFlag props;
  let n := EnumIfaceToInt64 en in
  let snm := ShortTypeName typ in
  '(tr, _) ← Properties tr snm;
  let alts :=
    foldl (fun (alts : gmap Z string) (i : Z) =>
             let str := EnumInt64ToString i typ in
             let str := Str.ToLower (Str.TrimPrefix str prefix) in
             <[i := str]> alts)
          ∅ (seqZ 0 n) in
  tr ← set_prop tr snm "AltStrings" (PAltStrings alts);
  Some (tr, typ).

(** One element of the slice that [Values] builds; [reflect.New] panics on
    the [nil] type of a name that is not in [tr.Enums]. *)
Definition Values_elem (alts : option (gmap Z string)) (et : option EnumType)
    (alt : bool) (i : Z) : option EnumValue :=
  et' ← et;
  let str := EnumInt64ToString i et' in
  let str :=
    match alts with
    | Some m => if alt then default "" (m !! i) else str
    | None => str
    end in
  Some {| Name := str; Value_ := i; Type_ := et' |}.

(** [None] is a panic: of the type assertion on ["N"], of [make] with a
    negative length, of [reflect.New(nil)], or of the write to a [nil]
    [tr.Vals].  What [make] does with a length that is too large to
    allocate is outside the model: where the model returns, the code returns
    the same if it can allocate the slice. *)
Definition Values (tr : EnumRegistry) (enumName : string) (alt : bool)
  : option (EnumRegistry * list EnumValue) :=
  match map_get (Vals tr) enumName with
  | Some vals => Some (tr, vals)
  | None =>
      let alts := AltStrings tr enumName in
      let et := map_get (Enums tr) enumName in
      n ← match Prop_ tr enumName "N" with Some (PInt64 n) => Some n | _ => None end;
      _ ← (if n <? 0 then None else Some tt);
      vals ← mapM (Values_elem alts et alt) (seqZ 0 n);
      vs ← map_put (Vals tr) enumName vals;
      Some ({| Enums := Enums tr; Props := Props tr; Vals := Some vs |}, vals)
  end.

End Registry.

(** ** The test type of [enums.go], and the type of the spec's example *)

(** Modelled from the spec: [testflags_string.go], which [go generate] makes
    for [type TestFlags int32], is not among the source files; the spec
    gives the canonical names [TestFlagsNil], [TestFlag1], [TestFlag2], and
    the const block of [enums.go] ends with [TestFlagsN]. *)
Definition TestFlags : EnumType := {|
  ShortName := "kit.TestFlags";
  TypeName := "TestFlags";
  Bits := 32;
  HasString := true;
  HasFromString := true;
  name_tbl := "TestFlagsNilTestFlag1TestFlag2TestFlagsN";
  index_tbl := [0; 12; 21; 30; 40]%nat
|}.

Definition TestFlagsN : Value := {| vPtr := false; vType := TestFlags; vInt := 3 |}.

(** [var KiT_TestFlags = Enums.AddEnumAltLower(TestFlagsN, false, nil, "Test")] *)
Definition KiT_TestFlags (tr : EnumRegistry) : option (EnumRegistry * EnumType) :=
  Registry.AddEnumAltLower tr TestFlagsN false None "Test".

(** The type of the spec's example: ordinals 0 [Nil], 1 [FlagA], 2 [FlagB]. *)
Definition ABFlags : EnumType := {|
  ShortName := "ex.ABFlags";
  TypeName := "ABFlags";
  Bits := 64;
  HasString := true;
  HasFromString := true;
  name_tbl := "NilFlagAFlagB";
  index_tbl := [0; 3; 8; 13]%nat
|}.

(** ** The further conversions and registry methods of [enums.go] *)

(** [EnumIfaceFromString]: the error of the set is dropped, the enum is
    returned as it then is. *)
Definition EnumIfaceFromString (str : string) (typ : EnumType) : Value :=
  let evn := New typ in
  Elem (fst (SetEnumValueFromString evn str)).

Module RegistryExt.

Definition Enum (tr : EnumRegistry) (name : string) : option EnumType :=
  map_get (Enums tr) name.

Definition TypeRegistered (tr : EnumRegistry) (typ : EnumType) : bool :=
  let enumName := ShortTypeName typ in
  match map_get (Enums tr) enumName with
  | Some _ => true
  | None => false
  end.

(** The string is empty both without a table and without the key. *)
Definition EnumInt64ToAltString (tr : EnumRegistry) (ival : Z) (typnm : string) : string :=
  match Registry.AltStrings tr typnm with
  | None => ""
  | Some alts => default "" (alts !! ival)
  end.

Definition TypeValues (tr : EnumRegistry) (et : EnumType) (alt : bool)
  : option (EnumRegistry * list EnumValue) :=
  Registry.Values tr (ShortTypeName et) alt.

(** The body of [for i, v := range alts], over the entries in the order in
    which the loop meets them: the key of the first entry that holds
    [str]. *)
Fixpoint range_find (kvs : list (Z * string)) (str : string) : option Z :=
  match kvs with
  | [] => None
  | (i, v) :: rest => if String.eqb v str then Some i else range_find rest str
  end.

Section Range.

(** Go leaves the order of a [range] over a map open: [range_alts] and
    [range_enums] give the entries of a map in the order of one run. *)
Variable range_alts : gmap Z string -> list (Z * string).
Variable range_enums : gmap string EnumType -> list (string * EnumType).

Definition SetEnumValueFromAltString (tr : EnumRegistry) (eval : Value) (str : string)
  : Value * error :=
  if negb (vPtr eval)
  then (eval, Some "kit.SetEnumValueFromString -- you must pass a pointer enum")
  else
    let tn := ShortTypeName (vType eval) in
    match Registry.AltStrings tr tn with
    | None =>
        (eval, Some "kit.SetEnumValueFromAltString: no alternative string map for type")
    | Some alts =>
        match range_find (range_alts alts) str with
        | Some i => SetEnumValueFromInt64 eval i
        | None =>
            (eval, Some "kit.SetEnumValueFromAltString: string not found in alt list of strings for type")
        end
    end.

Definition SetEnumIfaceFromAltString (tr : EnumRegistry) (eptr : Value) (str : string)
  : Value * error :=
  SetEnumValueFromAltString tr eptr str.

Definition SetEnumValueFromStringAltFirst (tr : EnumRegistry) (eval : Value) (str : string)
  : Value * error :=
  let '(eval', err) := SetEnumValueFromAltString tr eval str in
  match err with
  | Some _ => SetEnumValueFromString eval' str
  | None => (eval', err)
  end.

(** One turn of the loop of [BitFlagsFromStringAltFirst]. *)
Definition BitFlagsFromStringAltFirst_step (tr : EnumRegistry)
    (st : Value * Z * error) (flg : string) : Value * Z * error :=
  let '(evv, bflg, _) := st in
  let '(evv', err) := SetEnumValueFromStringAltFirst tr evv flg in
  match err with
  | None => (evv', bitflag.Set_ bflg (EnumIfaceToInt64 evv'), err)
  | Some _ => (evv', bflg, err)
  end.

Definition BitFlagsFromStringAltFirst (tr : EnumRegistry) (bflg : Z) (str : string)
    (et : EnumType) (n : Z) : Z * error :=
  let flgs := Str.Split str "|" in
  let evv := New et in
  let '(_, bflg', err) :=
    foldl (BitFlagsFromStringAltFirst_step tr) (evv, bflg, None) flgs in
  (bflg', err).

(** [eval] is a pointer to the enum or the enum itself; the count that
    [NVals] gives is handed on and not used. *)
Definition SetAnyEnumValueFromString (tr : EnumRegistry) (eval : Value) (str : string)
  : Value * error :=
  if negb (vPtr eval)
  then (eval, Some "kit.SetAnyEnumValueFromString -- you must pass a pointer enum")
  else
    let et := vType eval in
    if Registry.IsBitFlag tr et then
      let '(bf, err) := BitFlagsFromStringAltFirst tr 0 str et (Registry.NVals tr eval) in
      match err with
      | Some _ => (eval, err)
      | None => SetEnumValueFromInt64 eval bf
      end
    else SetEnumValueFromStringAltFirst tr eval str.

(** [AllTagged]: the loop appends the types that have the property, in the
    order of the [range]. *)
Definition AllTagged (tr : EnumRegistry) (key : string) : list EnumType :=
  match Enums tr with
  | None => []
  | Some es =>
      foldl (fun (tl : list EnumType) (kv : string * EnumType) =>
               match Registry.Prop_ tr (ShortTypeName (snd kv)) key with
               | None => tl
               | Some _ => tl ++ [snd kv]
               end)
            [] (range_enums es)
  end.

End Range.

End RegistryExt.

(** ** Marshaling *)

(** The byte of the double quote. *)
Definition dquote : string := String (ascii_of_nat 34) EmptyString.

(** [Enums.IsBitFlag(reflect.TypeOf(eval))]: the type is not normalised,
    and for a pointer to an enum the registry has no ["BitFlag"] under the
    pointer type (see [Registry.TypeOf_Prop]); [Enums_] is the master
    registry [Enums]. *)
Definition IsBitFlag_TypeOf (Enums_ : EnumRegistry) (eval : Value) : bool :=
  if vPtr eval then false else Registry.IsBitFlag Enums_ (vType eval).

(** [EnumMarshalText] and [EnumMarshalJSON]; a slice of bytes is the string
    of these bytes.  A pointer to an enum takes the branch of [String], also
    when the enum's type is registered as bit flags. *)
Definition EnumMarshalText (Enums_ : EnumRegistry) (eval : Value) : string * error :=
  let b := EmptyString in
  let b :=
    if IsBitFlag_TypeOf Enums_ eval
    then b +:+ BitFlagsToString (EnumIfaceToInt64 eval) eval
    else b +:+ EnumIfaceToString eval in
  (b, None).

Definition EnumMarshalJSON (Enums_ : EnumRegistry) (eval : Value) : string * error :=
  let b := EmptyString in
  let b := b +:+ dquote in
  let b :=
    if IsBitFlag_TypeOf Enums_ eval
    then b +:+ BitFlagsToString (EnumIfaceToInt64 eval) eval
    else b +:+ EnumIfaceToString eval in
  let b := b +:+ dquote in
  (b, None).

(** ** What the properties are stated with *)

(** The ordinals below [n] whose bit is set in [bflg], in the order in which
    the loop of the encode meets them. *)
Definition set_ordinals (bflg n : Z) : list Z :=
  filter (fun i => bitflag.Has bflg i = true) (seqZ 0 n).

(** [FlagsN], the last constant of [Flags], has the ordinal 16 of its name
    in the table. *)
Definition FlagsN : Value := {| vPtr := false; vType := Flags; vInt := 16 |}.

(** The conditions under which the names that the encode writes are the
    entries of the type's table: the type has [String], its canonical names
    are distinct and not empty, and the count [n] is within the table and
    within the integer type. *)
Definition encodable (T : EnumType) (n : Z) : bool :=
  HasString T
  && bool_decide (NoDup (Stringer.names T))
  && forallb (fun s => negb (String.eqb s "")) (Stringer.names T)
  && (n <=? Z.of_nat (Stringer.count T))
  && (n <? 2 ^ (Bits T - 1)).

(** The further conditions of the decode: the type has [FromString], no
    canonical name holds the separator, and the ordinals are bits of an
    [int64] below the sign bit. *)
Definition decodable (T : EnumType) (n : Z) : bool :=
  encodable T n
  && HasFromString T
  && forallb (fun s => negb (Str.contains_byte "|" s)) (Stringer.names T)
  && (n <=? 63).

(** The bit pattern of a set of ordinals. *)
Definition bitsOf (S : list Z) : Z := foldl bitflag.Set_ 0 S.

(** The table that the loop of [AddEnumAltLower] fills. *)
Definition alt_table (typ : EnumType) (prefix : string) (n : Z) : gmap Z string :=
  foldl (fun (alts : gmap Z string) (i : Z) =>
           <[i := Str.ToLower (Str.TrimPrefix (EnumInt64ToString i typ) prefix)]> alts)
        ∅ (seqZ 0 n).

(** What the program does to the registry after a first call of [Values]. *)
Inductive later_call : EnumRegistry -> EnumRegistry -> Prop :=
  | call_AddEnum tr en bitFlag props tr' typ :
      Registry.AddEnum tr en bitFlag props = Some (tr', typ) ->
      later_call tr tr'
  | call_AddEnumAltLower tr en bitFlag props prefix tr' typ :
      Registry.AddEnumAltLower tr en bitFlag props prefix = Some (tr', typ) ->
      later_call tr tr'
  | call_Values tr enumName alt tr' vals :
      Registry.Values tr enumName alt = Some (tr', vals) ->
      later_call tr tr'.

(** The registry after [AddEnum(TestFlagsN, true, nil)] on the zero value,
    then after [AddEnum(TestFlagsN, false, nil)], and the one that the
    initialisation of [KiT_TestFlags] leaves, before and after a first
    [Values("kit.TestFlags", true)]. *)
Definition reg_once : EnumRegistry :=
  Eval vm_compute in
    match Registry.AddEnum zero_registry TestFlagsN true None with
    | Some (tr, _) => tr
    | None => zero_registry
    end.

Definition reg_twice : EnumRegistry :=
  Eval vm_compute in
    match Registry.AddEnum reg_once TestFlagsN false None with
    | Some (tr, _) => tr
    | None => zero_registry
    end.

Definition reg_test : EnumRegistry :=
  Eval vm_compute in
    match KiT_TestFlags zero_registry with
    | Some (tr, _) => tr
    | None => zero_registry
    end.

Definition reg_test_values : EnumRegistry * list EnumValue :=
  Eval vm_compute in
    match Registry.Values reg_test "kit.TestFlags" true with
    | Some r => r
    | None => (zero_registry, [])
    end.

(** The registry of [KiT_TestFlags] after a further
    [AddEnum(TestFlagsN, false, map[string]interface{}{})]. *)
Definition reg_test_again : EnumRegistry :=
  Eval vm_compute in
    match Registry.AddEnum reg_test TestFlagsN false (Some ∅) with
    | Some (tr, _) => tr
    | None => zero_registry
    end.

(** The entry that [Values] makes for the ordinal [i] of the type [et]. *)
Definition value_entry (alts : option (gmap Z string)) (et : EnumType) (alt : bool)
    (i : Z) : EnumValue :=
  {| Name := match alts with
             | Some m => if alt then default "" (m !! i) else EnumInt64ToString i et
             | None => EnumInt64ToString i et
             end;
     Value_ := i;
     Type_ := et |}.

(** The properties that [AddEnum] leaves for a type: those given, or else
    those found ([old]), with ["N"] set and, for a bit-flag type,
    ["BitFlag"]. *)
Definition registered_props (old : option (gmap string PropVal)) (n : Z)
    (bitFlag : bool) (props : option (gmap string PropVal)) : gmap string PropVal :=
  let base := match props with Some p => p | None => default ∅ old end in
  let tp := <["N" := PInt64 n]> base in
  if bitFlag then <["BitFlag" := PBool true]> tp else tp.



(** * Properties *)

(** ** The generated methods, for any pair of tables *)

Section StringerFacts.
Variable T : EnumType.

Local Abbreviation entry := (Stringer.entry T).
Local Abbreviation count := (Stringer.count T).
Local Abbreviation names := (Stringer.names T).
Local Abbreviation loop := (Stringer.FromString_loop T).

Lemma names_length : List.length names = count.
Proof. unfold Stringer.names. by rewrite length_map, length_seq. Qed.

Lemma names_lookup (j : nat) :
  (j < count)%nat -> names !! j = Some (entry j).
Proof.
  intros Hj. unfold Stringer.names.
  rewrite list_lookup_fmap, lookup_seq_lt by done. done.
Qed.

Lemma names_lookup_inv (j : nat) (s : string) :
  names !! j = Some s -> (j < count)%nat /\ entry j = s.
Proof.
  intros H. assert (Hj : (j < count)%nat).
  { rewrite <- names_length. by eapply lookup_lt_Some. }
  rewrite names_lookup in H by done. split; congruence.
Qed.

Lemma loop_Some (s : string) (fuel j k : nat) :
  loop s j fuel = Some k ->
  (j <= k < j + fuel)%nat /\ entry k = s /\
  forall m, (j <= m < k)%nat -> entry m <> s.
Proof.
  revert j. induction fuel as [|fuel IH]; intros j; simpl; [done|].
  destruct (String.eqb_spec s (entry j)) as [He|He].
  - intros [= <-]. repeat split; [lia | lia | done | intros m Hm; lia].
  - intros Hk. destruct (IH _ Hk) as (Hr & Hs & Hm).
    repeat split; [lia | lia | done |].
    intros m Hjm. destruct (decide (m = j)) as [->|]; [congruence|].
    apply Hm. lia.
Qed.

Lemma loop_None (s : string) (fuel j : nat) :
  loop s j fuel = None ->
  forall m, (j <= m < j + fuel)%nat -> entry m <> s.
Proof.
  revert j. induction fuel as [|fuel IH]; intros j; simpl; [lia|].
  destruct (String.eqb_spec s (entry j)) as [He|He]; [done|].
  intros Hk m Hm. destruct (decide (m = j)) as [->|]; [congruence|].
  apply (IH _ Hk). lia.
Qed.

Lemma loop_first (s : string) (fuel j k : nat) :
  (j <= k < j + fuel)%nat -> entry k = s ->
  (forall m, (j <= m < k)%nat -> entry m <> s) ->
  loop s j fuel = Some k.
Proof.
  intros Hk Hs Hm.
  destruct (loop s j fuel) as [k'|] eqn:E.
  - destruct (loop_Some _ _ _ _ E) as (Hr & Hs' & Hm').
    f_equal. destruct (Nat.lt_trichotomy k k') as [?|[?|?]]; [|done|].
    + exfalso. apply (Hm' k); [lia|done].
    + exfalso. apply (Hm k'); [lia|done].
  - exfalso. by apply (loop_None _ _ _ E k).
Qed.

(** A string that is no canonical name is refused, and the receiver keeps
    its value. *)
Lemma FromString_unknown (recv : Z) (s : string) :
  s ∉ names ->
  Stringer.FromString T recv s =
    (recv, Some ("String: " +:+ s +:+ " is not a valid option for type: " +:+ TypeName T)).
Proof.
  intros Hn. unfold Stringer.FromString.
  destruct (loop s 0 count) as [k|] eqn:E; [|done].
  destruct (loop_Some _ _ _ _ E) as (Hr & Hs & _).
  exfalso. apply Hn. apply list_elem_of_lookup. exists k.
  rewrite names_lookup by lia. by rewrite Hs.
Qed.

(** A refused string is no canonical name. *)
Lemma FromString_error_inv (recv : Z) (s : string) (e : string) :
  snd (Stringer.FromString T recv s) = Some e -> s ∉ names.
Proof.
  unfold Stringer.FromString.
  destruct (loop s 0 count) as [k|] eqn:E; [done|]. intros _ Hin.
  apply list_elem_of_lookup in Hin as [j Hj].
  apply names_lookup_inv in Hj as [Hj Hs].
  apply (loop_None _ _ _ E j); [lia|done].
Qed.

(** With distinct names, the name of ordinal [j] parses to [j]. *)
Lemma FromString_known (recv : Z) (j : nat) (s : string) :
  NoDup names -> names !! j = Some s ->
  Stringer.FromString T recv s = (Z.of_nat j, None).
Proof.
  intros Hnd Hj. unfold Stringer.FromString.
  destruct (names_lookup_inv _ _ Hj) as [Hlt Hs].
  rewrite (loop_first s count 0 j); [done | lia | done |].
  intros m Hm Hem.
  assert (names !! m = Some s) as Hm'.
  { rewrite names_lookup by lia. by rewrite Hem. }
  pose proof (NoDup_lookup _ _ _ _ Hnd Hm' Hj). lia.
Qed.

Lemma String_in_range (i : Z) :
  0 <= i < Z.of_nat count ->
  names !! Z.to_nat i = Some (Stringer.String_ T i).
Proof.
  intros Hi. unfold Stringer.String_.
  replace (i <? 0) with false by lia.
  replace (i >=? Z.of_nat count) with false by lia.
  simpl. apply names_lookup. lia.
Qed.

Lemma String_fallback (i : Z) :
  i < 0 \/ i >= Z.of_nat count ->
  Stringer.String_ T i = TypeName T +:+ "(" +:+ Str.FormatInt10 i +:+ ")".
Proof.
  intros Hi. unfold Stringer.String_.
  destruct (i <? 0) eqn:E1; [done|].
  replace (i >=? Z.of_nat count) with true by lia. done.
Qed.

(** The scalar round trip of any generated pair of methods. *)
Lemma FromString_String (recv i : Z) :
  NoDup names -> 0 <= i < Z.of_nat count ->
  Stringer.FromString T recv (Stringer.String_ T i) = (i, None).
Proof.
  intros Hnd Hi.
  rewrite (FromString_known recv (Z.to_nat i)); [|done|by apply String_in_range].
  f_equal. lia.
Qed.

End StringerFacts.

(** ** [ki.Flags] *)

Lemma Flags_names_eq : Stringer.names Flags = Flags_names.
Proof. reflexivity. Qed.

Lemma Flags_count : Stringer.count Flags = 17%nat.
Proof. reflexivity. Qed.

Lemma Flags_names_NoDup : NoDup (Stringer.names Flags).
Proof. rewrite Flags_names_eq. unfold Flags_names. apply (bool_decide_unpack _). by vm_compute. Qed.

(** C5. For the generated methods of every type whose canonical names are
    distinct, and every ordinal [i] below the count, [FromString] on the
    string that [String] gives for [i] sets the receiver to [i] and returns
    [nil]; so it is for [Flags] and every [i] of [0 .. 16]. *)
Theorem Flags_FromString_String :
  (forall (T : EnumType) (recv i : Z),
     NoDup (Stringer.names T) -> 0 <= i < Z.of_nat (Stringer.count T) ->
     Stringer.FromString T recv (Stringer.String_ T i) = (i, None)) /\
  (forall recv i : Z,
     0 <= i < 17 -> Flags_FromString recv (Flags_String i) = (i, None)).
Proof.
  split.
  - intros T recv i. apply FromString_String.
  - intros recv i Hi. unfold Flags_FromString, Flags_String.
    apply FromString_String; [apply Flags_names_NoDup|].
    rewrite Flags_count. lia.
Qed.

Lemma Flags_FromString_String_witness :
  Flags_String 7 = "NodeMoved" /\ Flags_FromString 0 "NodeMoved" = (7, None).
Proof.
  split; [reflexivity|].
  apply (proj2 Flags_FromString_String 0 7). lia.
Defined.

Lemma Flags_fallback_no_name (x : string) : "Flags(" +:+ x ∉ Stringer.names Flags.
Proof.
  rewrite Flags_names_eq. unfold Flags_names. intros Hin.
  repeat (apply elem_of_cons in Hin as [Hin|Hin]; [cbn in Hin; discriminate|]).
  by apply elem_of_nil in Hin.
Qed.

(** C8. An ordinal outside [0 .. 16] (17 among them) is printed in the
    fallback form [Flags(<i>)], and [FromString] refuses that string with
    its "not a valid option" error, leaving the receiver as it was. *)
Theorem Flags_fallback_refused (recv i : Z) :
  i < 0 \/ i >= 17 ->
  Flags_String i = "Flags(" +:+ Str.FormatInt10 i +:+ ")" /\
  Flags_FromString recv (Flags_String i) =
    (recv, Some ("String: " +:+ Flags_String i +:+ " is not a valid option for type: Flags")).
Proof.
  intros Hi.
  assert (Hs : Flags_String i = "Flags(" +:+ Str.FormatInt10 i +:+ ")").
  { unfold Flags_String. rewrite String_fallback; [done|]. by rewrite Flags_count. }
  split; [done|]. unfold Flags_FromString.
  rewrite FromString_unknown; [done|].
  rewrite Hs. apply Flags_fallback_no_name.
Qed.

Lemma Flags_fallback_refused_witness :
  Flags_String 17 = "Flags(17)" /\
  Flags_FromString 3 "Flags(17)" =
    (3, Some "String: Flags(17) is not a valid option for type: Flags").
Proof. apply (Flags_fallback_refused 3 17). right. lia. Defined.

(** C10. [FromString] on a string that is none of the 17 canonical names
    returns the error and leaves the receiver as it was; on the canonical
    name of ordinal [j] it sets the receiver to [j] and returns [nil]. *)
Theorem Flags_FromString_atomic (recv : Z) (s : string) :
  (s ∉ Flags_names ->
   Flags_FromString recv s =
     (recv, Some ("String: " +:+ s +:+ " is not a valid option for type: Flags"))) /\
  (forall j : nat, Flags_names !! j = Some s ->
   Flags_FromString recv s = (Z.of_nat j, None)).
Proof.
  unfold Flags_FromString. split.
  - intros Hn. apply FromString_unknown. by rewrite Flags_names_eq.
  - intros j Hj. apply FromString_known; [apply Flags_names_NoDup|].
    by rewrite Flags_names_eq.
Qed.

Lemma Flags_FromString_atomic_witness :
  Flags_FromString 5 "Bogus" =
    (5, Some "String: Bogus is not a valid option for type: Flags") /\
  Flags_FromString 5 "NodeMoved" = (7, None).
Proof.
  split.
  - apply (proj1 (Flags_FromString_atomic 5 "Bogus")).
    apply (bool_decide_unpack _). by vm_compute.
  - apply (proj2 (Flags_FromString_atomic 5 "NodeMoved") 7%nat). reflexivity.
Defined.

(** ** [SetEnumValueFromString] *)

(** Given a pointer to a type that has the method, the function returns
    [nil] whatever the method returned. *)
Lemma SetEnumValueFromString_nil (eval : Value) (str : string) :
  vPtr eval = true -> HasFromString (vType eval) = true ->
  SetEnumValueFromString eval str =
    (store eval (fst (Stringer.FromString (vType eval) (vInt eval) str)), None).
Proof. intros Hp Hm. unfold SetEnumValueFromString. by rewrite Hp, Hm. Qed.

(** C1. On a pointer to a [Flags] and the string [Bogus], which is no
    canonical name, the method [FromString] returns its error and
    [SetEnumValueFromString] and [SetEnumIfaceFromString] return [nil],
    with the pointee as it was. *)
Theorem SetEnumValueFromString_drops_error :
  snd (Flags_FromString 0 "Bogus") =
    Some "String: Bogus is not a valid option for type: Flags" /\
  SetEnumValueFromString (New Flags) "Bogus" = (New Flags, None) /\
  SetEnumIfaceFromString (New Flags) "Bogus" = None.
Proof. repeat split. Qed.

(** ** The decode of the spec's example *)

(** C2, as stated, fails: the decode of [FlagA|Bogus] from an empty
    accumulator does not end with an error and an empty accumulator. *)
Lemma decode_FlagA_Bogus_counterexample :
  ~ exists e : string,
      BitFlagsTypeFromString 0 "FlagA|Bogus" ABFlags 3 = (0, Some e).
Proof. intros [e He]. vm_compute in He. discriminate He. Qed.

(** C2, amended. The decode of [FlagA|Bogus] ORs the bit of [FlagA], bit 1,
    into the accumulator: a segment that parses is applied when it is
    parsed, and a later segment that does not parse takes nothing back. *)
Theorem decode_FlagA_Bogus_applies_FlagA (bflg : Z) :
  fst (BitFlagsTypeFromString bflg "FlagA|Bogus" ABFlags 3) = Z.lor bflg 2.
Proof.
  unfold BitFlagsTypeFromString.
  change (Str.Split "FlagA|Bogus" "|") with ["FlagA"; "Bogus"].
  cbn [foldl]. unfold BitFlagsTypeFromString_step at 2.
  rewrite SetEnumValueFromString_nil by done.
  change (EnumIfaceToInt64 _) with 1.
  unfold BitFlagsTypeFromString_step.
  rewrite SetEnumValueFromString_nil by done.
  change (EnumIfaceToInt64 _) with 1.
  cbn [fst]. unfold bitflag.Set_. change (bitflag.mask 1) with 2.
  by rewrite <- Z.lor_assoc, Z.lor_diag.
Qed.

(** ** The registry *)

Section RegistryFacts.
Import Registry.

Lemma set_prop_Some (tr tr' : EnumRegistry) (enumName key : string) (val : PropVal) :
  set_prop tr enumName key val = Some tr' ->
  exists ps tp,
    Props tr = Some ps /\ ps !! enumName = Some tp /\
    tr' = {| Enums := Enums tr; Props := Some (<[enumName := <[key := val]> tp]> ps);
             Vals := Vals tr |}.
Proof.
  unfold set_prop, map_get, map_put. destruct (Props tr) as [ps|]; [|done].
  simpl. destruct (ps !! enumName) as [tp|] eqn:E; [|done]. simpl.
  intros [= <-]. by exists ps, tp.
Qed.

Lemma Properties_Some (tr tr' : EnumRegistry) (enumName : string) (tp : gmap string PropVal) :
  Properties tr enumName = Some (tr', tp) ->
  Enums tr' = Enums tr /\ Vals tr' = Vals tr /\
  map_get (Props tr') enumName = Some tp /\
  (forall k, Prop_ tr' enumName k = Prop_ tr enumName k) /\
  (forall e, e <> enumName -> map_get (Props tr') e = map_get (Props tr) e).
Proof.
  unfold Properties, Prop_.
  destruct (map_get (Props tr) enumName) as [tp0|] eqn:E.
  - intros [= <- <-]. by rewrite E.
  - unfold map_put. destruct (Props tr) as [ps|] eqn:Ep; [|done]. simpl.
    intros [= <- <-]. simpl in *. rewrite lookup_insert_eq.
    repeat split; try done.
    intros e He. by rewrite lookup_insert_ne.
Qed.

Lemma set_prop_Prop_eq (tr tr' : EnumRegistry) (enumName key : string) (val : PropVal) :
  set_prop tr enumName key val = Some tr' -> Prop_ tr' enumName key = Some val.
Proof.
  intros H. apply set_prop_Some in H as (ps & tp & Hp & He & ->).
  unfold Prop_. simpl. by rewrite !lookup_insert_eq.
Qed.

Lemma set_prop_Prop_ne (tr tr' : EnumRegistry) (enumName key k : string) (val : PropVal) :
  set_prop tr enumName key val = Some tr' -> k <> key ->
  Prop_ tr' enumName k = Prop_ tr enumName k.
Proof.
  intros H Hk. apply set_prop_Some in H as (ps & tp & Hp & He & ->).
  unfold Prop_. simpl. rewrite Hp. simpl. rewrite He.
  by rewrite lookup_insert_eq, lookup_insert_ne.
Qed.

Lemma set_prop_frame (tr tr' : EnumRegistry) (enumName key : string) (val : PropVal) :
  set_prop tr enumName key val = Some tr' ->
  Enums tr' = Enums tr /\ Vals tr' = Vals tr.
Proof. intros H. by apply set_prop_Some in H as (ps & tp & Hp & He & ->). Qed.

(** What one call of [AddEnum] leaves in the registry: [prior] is the
    [BitFlag] property found by a call that is given no properties. *)
Lemma AddEnum_props (tr tr' : EnumRegistry) (en : Value) (bitFlag : bool)
    (props : option (gmap string PropVal)) (typ : EnumType) :
  AddEnum tr en bitFlag props = Some (tr', typ) ->
  let snm := ShortTypeName (vType en) in
  let prior := match Enums tr with
               | Some _ => Prop_ tr snm "BitFlag"
               | None => None
               end in
  typ = vType en /\
  is_Some (Enums tr') /\
  Vals tr' = match Enums tr with Some _ => Vals tr | None => Some ∅ end /\
  Prop_ tr' snm "N" = Some (PInt64 (EnumIfaceToInt64 en)) /\
  Prop_ tr' snm "BitFlag" =
    if bitFlag then Some (PBool true)
    else match props with Some p => p !! "BitFlag" | None => prior end.
Proof.
  intros H snm prior. unfold AddEnum in H.
  set (tr0 := match Enums tr with
              | Some _ => tr
              | None => {| Enums := Some ∅; Props := Some ∅; Vals := Some ∅ |}
              end) in *.
  assert (Hprior : prior = match props with
                           | Some _ => prior
                           | None => Prop_ tr0 snm "BitFlag" end).
  { destruct props; [done|]. subst prior tr0. by destruct (Enums tr). }
  assert (Hvals : Vals tr0 = match Enums tr with Some _ => Vals tr | None => Some ∅ end).
  { subst tr0. by destruct (Enums tr). }
  rewrite <- Hvals. clearbody tr0. clear Hvals.
  destruct (map_put (Enums tr0) (ShortTypeName (vType en)) (vType en))
    as [es|] eqn:Ees; [|done].
  simpl in H. fold snm in H.
  set (tr1 := {| Enums := Some es; Props := Props tr0; Vals := Vals tr0 |}) in *.
  destruct (match props with
            | Some p => _
            | None => Some tr1 end) as [tr2|] eqn:E2; [|done].
  simpl in H.
  assert (H2 : Enums tr2 = Some es /\ Vals tr2 = Vals tr0 /\
               Prop_ tr2 snm "BitFlag" =
                 match props with Some p => p !! "BitFlag" | None => prior end).
  { destruct props as [p|].
    - unfold map_put in E2. simpl in E2. destruct (Props tr0) as [ps|]; [|done].
      simpl in E2. injection E2 as <-. unfold Prop_. simpl.
      by rewrite lookup_insert_eq.
    - injection E2 as <-. rewrite Hprior. done. }
  clear E2 Hprior. destruct H2 as (He2 & Hv2 & Hb2).
  destruct (Properties tr2 snm) as [[tr3 tp3]|] eqn:E3; [|done]. simpl in H.
  apply Properties_Some in E3 as (He3 & Hv3 & _ & Hp3 & _).
  destruct (set_prop tr3 snm "N" (PInt64 (EnumIfaceToInt64 en))) as [tr4|] eqn:E4; [|done].
  simpl in H.
  pose proof (set_prop_Prop_eq _ _ _ _ _ E4) as HN4.
  pose proof (set_prop_Prop_ne _ _ _ _ "BitFlag" _ E4 ltac:(done)) as HB4.
  apply set_prop_frame in E4 as [He4 Hv4].
  destruct bitFlag.
  - destruct (Properties tr4 snm) as [[tr5 tp5]|] eqn:E5; [|done]. simpl in H.
    apply Properties_Some in E5 as (He5 & Hv5 & _ & Hp5 & _).
    destruct (set_prop tr5 snm "BitFlag" (PBool true)) as [tr6|] eqn:E6; [|done].
    simpl in H. injection H as <- <-.
    pose proof (set_prop_Prop_eq _ _ _ _ _ E6) as HB6.
    pose proof (set_prop_Prop_ne _ _ _ _ "N" _ E6 ltac:(done)) as HN6.
    apply set_prop_frame in E6 as [He6 Hv6].
    repeat split; try congruence.
    rewrite He6, He5, He4, He3, He2. done.
  - injection H as <- <-.
    repeat split; try congruence.
    rewrite He4, He3, He2. done.
Qed.

End RegistryFacts.

Lemma IsBitFlag_Prop (tr : EnumRegistry) (typ : EnumType) :
  Registry.IsBitFlag tr typ =
    fst (ToBool (Registry.Prop_ tr (ShortTypeName typ) "BitFlag")).
Proof. reflexivity. Qed.

Lemma AddEnum_true_then_false :
  Registry.AddEnum zero_registry TestFlagsN true None = Some (reg_once, TestFlags) /\
  Registry.AddEnum reg_once TestFlagsN false None = Some (reg_twice, TestFlags) /\
  Registry.IsBitFlag reg_twice TestFlags = true.
Proof. split; [by vm_compute|]. split; by vm_compute. Qed.

(** C3, as stated, fails: a registration with [bitFlag = true] followed
    by one of the same type with [bitFlag = false] does not leave
    [IsBitFlag] false. *)
Lemma AddEnum_twice_counterexample :
  ~ forall (tr1 tr2 : EnumRegistry) (t1 t2 : EnumType),
      Registry.AddEnum zero_registry TestFlagsN true None = Some (tr1, t1) ->
      Registry.AddEnum tr1 TestFlagsN false None = Some (tr2, t2) ->
      Registry.IsBitFlag tr2 TestFlags = false.
Proof.
  intros H. destruct AddEnum_true_then_false as (E1 & E2 & Hb).
  rewrite (H _ _ _ _ E1 E2) in Hb. discriminate Hb.
Qed.

(** C3, amended. After two calls of [AddEnum] for one type name, [NVals],
    asked with an enum of the type (not with a pointer to one), is the count
    of the second call.  [IsBitFlag] is true when the second
    call has [bitFlag = true]; otherwise, when the second call brings
    properties, these replace the stored ones and [IsBitFlag] follows their
    ["BitFlag"] entry; and when it brings none, the stored properties stay
    and [IsBitFlag] answers as it did after the first call, where it was
    true if that call had [bitFlag = true]. *)
Theorem AddEnum_twice (tr tr1 tr2 : EnumRegistry) (en1 en2 : Value)
    (bf1 bf2 : bool) (p1 p2 : option (gmap string PropVal)) (t1 t2 : EnumType) :
  ShortTypeName (vType en1) = ShortTypeName (vType en2) ->
  Registry.AddEnum tr en1 bf1 p1 = Some (tr1, t1) ->
  Registry.AddEnum tr1 en2 bf2 p2 = Some (tr2, t2) ->
  (forall eval : Value,
     vPtr eval = false -> vType eval = vType en2 ->
     Registry.NVals tr2 eval = EnumIfaceToInt64 en2) /\
  Registry.IsBitFlag tr2 (vType en2) =
    bf2 || match p2 with
           | Some p => fst (ToBool (p !! "BitFlag"))
           | None => Registry.IsBitFlag tr1 (vType en1)
           end /\
  Registry.IsBitFlag tr1 (vType en1) =
    bf1 || match p1 with
           | Some p => fst (ToBool (p !! "BitFlag"))
           | None => match Enums tr with
                     | Some _ => Registry.IsBitFlag tr (vType en1)
                     | None => false
                     end
           end.
Proof.
  intros Hs E1 E2.
  apply AddEnum_props in E1 as (_ & [es1 He1] & _ & _ & HB1).
  apply AddEnum_props in E2 as (_ & _ & _ & HN2 & HB2).
  cbv zeta in HB1, HB2. rewrite He1 in HB2.
  split; [|split].
  - intros eval Hp Ht. unfold Registry.NVals, Registry.TypeOf_Prop.
    by rewrite Hp, Ht, HN2.
  - rewrite !IsBitFlag_Prop, HB2, Hs.
    destruct bf2; [done|]. by destruct p2.
  - rewrite !IsBitFlag_Prop, HB1.
    destruct bf1; [done|]. destruct p1; [done|]. by destruct (Enums tr).
Qed.

Lemma AddEnum_twice_witness :
  Registry.AddEnum zero_registry TestFlagsN true None = Some (reg_once, TestFlags) /\
  Registry.AddEnum reg_once TestFlagsN false None = Some (reg_twice, TestFlags) /\
  Registry.NVals reg_twice TestFlagsN = 3 /\
  Registry.IsBitFlag reg_twice TestFlags = true.
Proof.
  assert (E1 : Registry.AddEnum zero_registry TestFlagsN true None
               = Some (reg_once, TestFlags)) by (by vm_compute).
  assert (E2 : Registry.AddEnum reg_once TestFlagsN false None
               = Some (reg_twice, TestFlags)) by (by vm_compute).
  split; [exact E1|]. split; [exact E2|].
  destruct (AddEnum_twice zero_registry reg_once reg_twice TestFlagsN TestFlagsN
              true false None None TestFlags TestFlags eq_refl E1 E2)
    as (HN & HB & HB1).
  change (vType TestFlagsN) with TestFlags in HB, HB1.
  split; [exact (HN TestFlagsN eq_refl eq_refl)|]. rewrite HB, HB1. reflexivity.
Defined.

Lemma foldl_insert_lookup (f : Z -> string) (l : list Z) (m0 : gmap Z string) (i : Z) :
  foldl (fun (m : gmap Z string) (j : Z) => <[j := f j]> m) m0 l !! i =
    if decide (i ∈ l) then Some (f i) else m0 !! i.
Proof.
  revert m0. induction l as [|a l IH]; intros m0.
  - cbn [foldl]. case_decide as Hi; [|done]. by apply elem_of_nil in Hi.
  - cbn [foldl]. rewrite IH. destruct (decide (i ∈ l)) as [Hil|Hil].
    + by rewrite decide_True by (by right).
    + destruct (decide (i = a)) as [->|Hia].
      * rewrite decide_True by left. by rewrite lookup_insert_eq.
      * rewrite decide_False by (by intros [?|?]%elem_of_cons).
        by rewrite lookup_insert_ne.
Qed.

Lemma alt_table_lookup (typ : EnumType) (prefix : string) (n i : Z) :
  alt_table typ prefix n !! i =
    if decide (0 <= i < n)
    then Some (Str.ToLower (Str.TrimPrefix (EnumInt64ToString i typ) prefix))
    else None.
Proof.
  unfold alt_table.
  rewrite (foldl_insert_lookup
             (fun i => Str.ToLower (Str.TrimPrefix (EnumInt64ToString i typ) prefix))).
  destruct (decide (0 <= i < n)) as [Hi|Hi].
  - rewrite decide_True; [done|]. apply elem_of_seqZ. lia.
  - rewrite decide_False; [done|]. rewrite elem_of_seqZ. lia.
Qed.

Lemma AddEnumAltLower_stores (tr tr' : EnumRegistry) (en : Value) (bitFlag : bool)
    (props : option (gmap string PropVal)) (prefix : string) (typ : EnumType) :
  Registry.AddEnumAltLower tr en bitFlag props prefix = Some (tr', typ) ->
  typ = vType en /\
  Registry.AltStrings tr' (ShortTypeName typ) =
    Some (alt_table typ prefix (EnumIfaceToInt64 en)).
Proof.
  unfold Registry.AddEnumAltLower. intros H.
  destruct (Registry.AddEnum tr en bitFlag props) as [[tr1 typ1]|] eqn:E1; [|done].
  simpl in H.
  destruct (Registry.Properties tr1 (ShortTypeName typ1)) as [[tr2 tp2]|]; [|done].
  simpl in H.
  destruct (Registry.set_prop tr2 _ _ _) as [tr3|] eqn:E3; [|done].
  simpl in H. injection H as <- <-.
  apply AddEnum_props in E1 as (-> & _).
  split; [done|]. unfold Registry.AltStrings.
  by rewrite (set_prop_Prop_eq _ _ _ _ _ E3).
Qed.

(** C9. [AddEnumAltLower] with prefix [p] stores under ["AltStrings"] a table
    that maps every ordinal [i] of [0 .. N-1], and no other key, to the
    lower-cased canonical name of [i] without a leading [p]; for
    [TestFlags] and the prefix [Test] the table is [flagsnil], [flag1],
    [flag2]. *)
Theorem AddEnumAltLower_AltStrings :
  (forall (tr tr' : EnumRegistry) (en : Value) (bitFlag : bool)
          (props : option (gmap string PropVal)) (prefix : string) (typ : EnumType),
     Registry.AddEnumAltLower tr en bitFlag props prefix = Some (tr', typ) ->
     exists alts : gmap Z string,
       Registry.AltStrings tr' (ShortTypeName typ) = Some alts /\
       (forall i, 0 <= i < EnumIfaceToInt64 en ->
          alts !! i =
            Some (Str.ToLower (Str.TrimPrefix (EnumInt64ToString i typ) prefix))) /\
       (forall i, is_Some (alts !! i) -> 0 <= i < EnumIfaceToInt64 en)) /\
  (forall (tr tr' : EnumRegistry) (typ : EnumType),
     KiT_TestFlags tr = Some (tr', typ) ->
     Registry.AltStrings tr' "kit.TestFlags" =
       Some (<[2 := "flag2"]> (<[1 := "flag1"]> (<[0 := "flagsnil"]> ∅)))) /\
  is_Some (KiT_TestFlags zero_registry).
Proof.
  split; [|split].
  - intros tr tr' en bitFlag props prefix typ H.
    apply AddEnumAltLower_stores in H as [_ H].
    eexists. split; [exact H|]. split.
    + intros i Hi. rewrite alt_table_lookup. by rewrite decide_True.
    + intros i [s Hs]. rewrite alt_table_lookup in Hs.
      by destruct (decide (0 <= i < EnumIfaceToInt64 en)).
  - intros tr tr' typ H.
    apply AddEnumAltLower_stores in H as [-> H]. exact H.
  - vm_compute. eexists. reflexivity.
Qed.

Lemma AddEnumAltLower_AltStrings_witness :
  KiT_TestFlags zero_registry = Some (reg_test, TestFlags) /\
  exists alts : gmap Z string,
    Registry.AltStrings reg_test "kit.TestFlags" = Some alts /\
    alts !! 0 = Some "flagsnil" /\ alts !! 1 = Some "flag1" /\
    alts !! 2 = Some "flag2" /\ alts !! 3 = None.
Proof.
  assert (E : KiT_TestFlags zero_registry = Some (reg_test, TestFlags))
    by (by vm_compute).
  split; [exact E|].
  destruct (proj1 AddEnumAltLower_AltStrings _ _ _ _ _ _ _ E) as (alts & Ha & Hin & Hout).
  exists alts. split; [exact Ha|].
  split; [exact (Hin 0 ltac:(by vm_compute))|].
  split; [exact (Hin 1 ltac:(by vm_compute))|].
  split; [exact (Hin 2 ltac:(by vm_compute))|].
  destruct (alts !! 3) as [s|] eqn:E3; [|reflexivity].
  exfalso. pose proof (Hout 3 (ex_intro _ s E3)) as H3. vm_compute in H3.
  destruct H3 as [_ H3]. discriminate H3.
Defined.

(** ** The catalog of values *)

Lemma Values_Some (tr tr' : EnumRegistry) (enumName : string) (alt : bool)
    (vals : list EnumValue) :
  Registry.Values tr enumName alt = Some (tr', vals) ->
  Enums tr' = Enums tr /\ Props tr' = Props tr /\
  map_get (Vals tr') enumName = Some vals /\
  (forall e vs, map_get (Vals tr) e = Some vs -> map_get (Vals tr') e = Some vs).
Proof.
  unfold Registry.Values.
  destruct (map_get (Vals tr) enumName) as [vs|] eqn:E.
  - intros [= <- <-]. done.
  - intros H.
    destruct (match Registry.Prop_ tr enumName "N" with
              | Some (PInt64 n) => Some n | _ => None end) as [n|]; [|done].
    simpl in H. destruct (n <? 0); [done|]. simpl in H.
    destruct (mapM _ _) as [vals'|]; [|done]. simpl in H.
    unfold map_put in H. destruct (Vals tr) as [m|] eqn:Ev; [|done].
    simpl in H. injection H as <- <-. simpl in *.
    repeat split; [by rewrite lookup_insert_eq|].
    intros e vs He. destruct (decide (e = enumName)) as [->|Hne]; [congruence|].
    by rewrite lookup_insert_ne.
Qed.

Lemma Values_hit (tr : EnumRegistry) (enumName : string) (alt : bool)
    (vals : list EnumValue) :
  map_get (Vals tr) enumName = Some vals ->
  Registry.Values tr enumName alt = Some (tr, vals).
Proof. intros H. unfold Registry.Values. by rewrite H. Qed.

Lemma later_call_keeps (tr tr' : EnumRegistry) (enumName : string) (vals : list EnumValue) :
  later_call tr tr' ->
  is_Some (Enums tr) -> map_get (Vals tr) enumName = Some vals ->
  is_Some (Enums tr') /\ map_get (Vals tr') enumName = Some vals.
Proof.
  intros Hc [es He] Hv. destruct Hc as [tr en bf props tr' typ H
                                      |tr en bf props prefix tr' typ H
                                      |tr e alt tr' vs H].
  - apply AddEnum_props in H as (_ & Hes & Hvs & _).
    rewrite He in Hvs. by rewrite Hvs.
  - unfold Registry.AddEnumAltLower in H.
    destruct (Registry.AddEnum tr en bf props) as [[tr1 typ1]|] eqn:E1; [|done].
    simpl in H.
    destruct (Registry.Properties tr1 _) as [[tr2 tp2]|] eqn:E2; [|done].
    simpl in H.
    destruct (Registry.set_prop tr2 _ _ _) as [tr3|] eqn:E3; [|done].
    simpl in H. injection H as <- <-.
    apply AddEnum_props in E1 as (_ & Hes & Hvs & _).
    apply Properties_Some in E2 as (He2 & Hv2 & _).
    apply set_prop_frame in E3 as (He3 & Hv3).
    rewrite He in Hvs. by rewrite He3, He2, Hv3, Hv2, Hvs.
  - apply Values_Some in H as (He' & _ & _ & Hk).
    rewrite He', He. split; [by eexists|]. by apply Hk.
Qed.

(** C7. Once [Values(name, a)] has returned a list, every later
    [Values(name, b)] returns that list, for either [b]: directly after
    the first call, and after any further calls of [AddEnum],
    [AddEnumAltLower] and [Values] on a registry that [AddEnum] set up. *)
Theorem Values_cached_by_name (tr tr1 : EnumRegistry) (enumName : string) (a : bool)
    (vals : list EnumValue) :
  Registry.Values tr enumName a = Some (tr1, vals) ->
  (forall b : bool, Registry.Values tr1 enumName b = Some (tr1, vals)) /\
  (is_Some (Enums tr) ->
   forall tr2 : EnumRegistry, rtc later_call tr1 tr2 ->
   forall b : bool, Registry.Values tr2 enumName b = Some (tr2, vals)).
Proof.
  intros H. apply Values_Some in H as (He & _ & Hv & _). split.
  - intros b. by apply Values_hit.
  - intros Hes tr2 Hsteps b. apply Values_hit.
    rewrite <- He in Hes. clear He.
    induction Hsteps as [tr1|tr1 tr1' tr2 Hc _ IH]; [done|].
    destruct (later_call_keeps _ _ _ _ Hc Hes Hv) as [Hes' Hv'].
    by apply IH.
Qed.

Lemma Values_cached_by_name_witness :
  Registry.Values reg_test "kit.TestFlags" true = Some reg_test_values /\
  map Name (snd reg_test_values) = ["flagsnil"; "flag1"; "flag2"] /\
  Registry.Values (fst reg_test_values) "kit.TestFlags" false = Some reg_test_values.
Proof.
  assert (E : Registry.Values reg_test "kit.TestFlags" true
              = Some (fst reg_test_values, snd reg_test_values)) by (by vm_compute).
  split; [exact E|]. split; [reflexivity|].
  exact (proj1 (Values_cached_by_name _ _ _ _ _ E) false).
Defined.

(** ** Strings *)

Section StringFacts.

Lemma append_cons (x : ascii) (a b : string) :
  String x a +:+ b = String x (a +:+ b).
Proof. reflexivity. Qed.

Lemma append_assoc (a b c : string) : (a +:+ b) +:+ c = a +:+ (b +:+ c).
Proof.
  induction a as [|x a IH]; [done|].
  by rewrite !append_cons, IH.
Qed.

Lemma append_empty_inv (a b : string) : a +:+ b = "" -> a = "" /\ b = "".
Proof. destruct a; [done|]. rewrite append_cons. discriminate. Qed.

Lemma concat_snoc (sep : string) (xs : list string) (x : string) :
  String.concat sep (xs ++ [x]) =
    match xs with
    | [] => x
    | _ :: _ => String.concat sep xs +:+ sep +:+ x
    end.
Proof.
  induction xs as [|y xs IH]; [done|].
  destruct xs as [|z xs]; [done|].
  change (String.concat sep ((y :: z :: xs) ++ [x]))
    with (y +:+ sep +:+ String.concat sep ((z :: xs) ++ [x])).
  rewrite IH.
  change (String.concat sep (y :: z :: xs))
    with (y +:+ sep +:+ String.concat sep (z :: xs)).
  by rewrite !append_assoc.
Qed.

Lemma concat_nonempty (sep : string) (xs : list string) :
  xs <> [] -> Forall (fun s => s <> "") xs -> String.concat sep xs <> "".
Proof.
  destruct xs as [|x xs]; [done|]. intros _ Hne.
  apply Forall_cons in Hne as [Hx _].
  destruct xs as [|y xs]; [done|].
  change (String.concat sep (x :: y :: xs))
    with (x +:+ sep +:+ String.concat sep (y :: xs)).
  intros [? _]%append_empty_inv. done.
Qed.

Lemma Split_nosep (x : string) (sep : ascii) :
  Str.contains_byte sep x = false -> Str.Split x sep = [x].
Proof.
  induction x as [|c r IH]; simpl; [done|].
  intros [Hc Hr]%orb_false_elim. rewrite Hc. by rewrite (IH Hr).
Qed.

Lemma Split_app (x rest : string) (sep : ascii) :
  Str.contains_byte sep x = false ->
  Str.Split (x +:+ String sep rest) sep = x :: Str.Split rest sep.
Proof.
  induction x as [|c r IH].
  - intros _. change ("" +:+ String sep rest) with (String sep rest).
    simpl. by rewrite Ascii.eqb_refl.
  - rewrite append_cons. simpl.
    intros [Hc Hr]%orb_false_elim. rewrite Hc. by rewrite (IH Hr).
Qed.

(** Splitting undoes joining, for pieces without the separator. *)
Lemma Split_concat (xs : list string) (sep : ascii) :
  xs <> [] -> Forall (fun s => Str.contains_byte sep s = false) xs ->
  Str.Split (String.concat (String sep "") xs) sep = xs.
Proof.
  induction xs as [|x xs IH]; [done|]. intros _ Hxs.
  apply Forall_cons in Hxs as [Hx Hxs].
  destruct xs as [|y xs]; [by apply Split_nosep|].
  change (String.concat (String sep "") (x :: y :: xs))
    with (x +:+ String sep (String.concat (String sep "") (y :: xs))).
  rewrite Split_app by done. by rewrite IH.
Qed.

End StringFacts.

(** ** Integers and bits *)

Section BitFacts.

Lemma wrap_small (w z : Z) : 0 <= z < 2 ^ (w - 1) -> Int.wrap w z = z.
Proof.
  intros Hz. unfold Int.wrap.
  assert (0 <= w - 1) by (destruct (Z.le_gt_cases 0 (w - 1)); [done|];
                          rewrite Z.pow_neg_r in Hz; lia).
  assert (2 ^ (w - 1) <= 2 ^ w) by (apply Z.pow_le_mono_r; lia).
  rewrite Z.mod_small by lia.
  by replace (z <? 2 ^ (w - 1)) with true by lia.
Qed.

Lemma mask_pow2 (i : Z) : 0 <= i < 63 -> bitflag.mask i = 2 ^ i.
Proof.
  intros Hi. unfold bitflag.mask, Int.int64.
  rewrite Z.shiftl_1_l. apply wrap_small.
  split; [apply Z.pow_nonneg; lia|]. apply Z.pow_lt_mono_r; lia.
Qed.

Lemma land_pow2 (b i : Z) :
  0 <= i -> Z.land b (2 ^ i) = if Z.testbit b i then 2 ^ i else 0.
Proof.
  intros Hi. apply Z.bits_inj'. intros k Hk.
  rewrite Z.land_spec, Z.pow2_bits_eqb by done.
  destruct (Z.eqb_spec i k) as [->|Hne].
  - rewrite andb_true_r. destruct (Z.testbit b k) eqn:E.
    + by rewrite Z.pow2_bits_true.
    + by rewrite Z.bits_0.
  - rewrite andb_false_r. destruct (Z.testbit b i).
    + by rewrite Z.pow2_bits_false.
    + by rewrite Z.bits_0.
Qed.

(** [Has] reads the bit of an ordinal below 63. *)
Lemma Has_testbit (b i : Z) : 0 <= i < 63 -> bitflag.Has b i = Z.testbit b i.
Proof.
  intros Hi. unfold bitflag.Has. rewrite mask_pow2, land_pow2 by lia.
  destruct (Z.testbit b i); [|done].
  assert (0 < 2 ^ i) by (apply Z.pow_pos_nonneg; lia).
  by replace (2 ^ i =? 0) with false by lia.
Qed.

Lemma Set_testbit (b i k : Z) :
  0 <= i < 63 -> 0 <= k ->
  Z.testbit (bitflag.Set_ b i) k = Z.testbit b k || (i =? k).
Proof.
  intros Hi Hk. unfold bitflag.Set_.
  by rewrite mask_pow2, Z.lor_spec, Z.pow2_bits_eqb by lia.
Qed.

Lemma foldl_Set_testbit (l : list Z) (acc k : Z) :
  Forall (fun i => 0 <= i < 63) l -> 0 <= k ->
  Z.testbit (foldl bitflag.Set_ acc l) k = Z.testbit acc k || bool_decide (k ∈ l).
Proof.
  intros Hl Hk. revert acc. induction Hl as [|i l Hi Hl IH]; intros acc.
  - cbn [foldl]. rewrite bool_decide_eq_false_2 by apply not_elem_of_nil.
    by rewrite orb_false_r.
  - cbn [foldl]. rewrite IH, Set_testbit by done.
    rewrite <- orb_assoc. f_equal.
    destruct (Z.eqb_spec i k) as [->|Hne].
    + by rewrite (bool_decide_eq_true_2 (k ∈ k :: l)) by left.
    + simpl. apply bool_decide_ext. rewrite elem_of_cons.
      split; [by right|]. intros [Heq|Hin]; [congruence|done].
Qed.

End BitFacts.

(** ** The bit-flag codec *)

Section CodecFacts.
Variable T : EnumType.
Variable n : Z.

Local Abbreviation name := (fun i : Z => EnumInt64ToString i T).

Lemma encodable_inv :
  encodable T n = true ->
  HasString T = true /\ NoDup (Stringer.names T) /\
  Forall (fun s => s <> "") (Stringer.names T) /\
  n <= Z.of_nat (Stringer.count T) /\ n < 2 ^ (Bits T - 1).
Proof.
  unfold encodable. rewrite !andb_true_iff.
  intros ((((Hs & Hnd) & Hne) & Hc) & Hb).
  split; [done|]. split; [by apply bool_decide_eq_true_1 in Hnd|].
  split; [|lia].
  apply Forall_forall. intros s Hin ->.
  rewrite forallb_forall in Hne. apply list_elem_of_In in Hin.
  specialize (Hne _ Hin). done.
Qed.

Lemma decodable_inv :
  decodable T n = true ->
  encodable T n = true /\ HasFromString T = true /\
  Forall (fun s => Str.contains_byte "|" s = false) (Stringer.names T) /\
  n <= 63.
Proof.
  unfold decodable. rewrite !andb_true_iff.
  intros (((He & Hf) & Hp) & Hn).
  split; [done|]. split; [done|]. split; [|lia].
  apply Forall_forall. intros s Hin.
  rewrite forallb_forall in Hp. apply list_elem_of_In in Hin.
  specialize (Hp _ Hin). by apply negb_true_iff in Hp.
Qed.

(** The string that the encode writes for an ordinal below the count is
    that ordinal's entry of the table. *)
Lemma name_lookup (i : Z) :
  encodable T n = true -> 0 <= i < n ->
  Stringer.names T !! Z.to_nat i = Some (EnumInt64ToString i T).
Proof.
  intros (Hs & _ & _ & Hc & Hb)%encodable_inv Hi.
  unfold EnumInt64ToString, EnumIfaceToString, EnumIfaceFromInt64. simpl.
  rewrite Hs, wrap_small by lia. apply String_in_range. lia.
Qed.

Lemma name_nonempty (i : Z) :
  encodable T n = true -> 0 <= i < n -> EnumInt64ToString i T <> "".
Proof.
  intros He Hi. pose proof (name_lookup i He Hi) as Hl.
  apply encodable_inv in He as (_ & _ & Hne & _).
  rewrite Forall_forall in Hne. apply Hne.
  by eapply list_elem_of_lookup_2.
Qed.

Lemma name_inj (i j : Z) :
  encodable T n = true -> 0 <= i < n -> 0 <= j < n ->
  EnumInt64ToString i T = EnumInt64ToString j T -> i = j.
Proof.
  intros He Hi Hj Heq.
  pose proof (name_lookup i He Hi) as Hli.
  pose proof (name_lookup j He Hj) as Hlj.
  apply encodable_inv in He as (_ & Hnd & _).
  rewrite Heq in Hli.
  pose proof (NoDup_lookup _ _ _ _ Hnd Hli Hlj). lia.
Qed.

(** The loop of the encode, from a string that joins the names [xs]. *)
Lemma encode_loop (bflg : Z) (l : list Z) (xs : list string) :
  Forall (fun i => EnumInt64ToString i T <> "") l -> Forall (fun s => s <> "") xs ->
  foldl (BitFlagsToString_step bflg T) (String.concat "|" xs) l =
    String.concat "|"
      (xs ++ map name (filter (fun i => bitflag.Has bflg i = true) l)).
Proof.
  intros Hl. revert xs. induction Hl as [|i l Hi Hl IH]; intros xs Hxs.
  - cbn [foldl]. rewrite filter_nil. simpl. by rewrite app_nil_r.
  - cbn [foldl]. unfold BitFlagsToString_step at 2.
    destruct (bitflag.Has bflg i) eqn:EH.
    + rewrite filter_cons_True by done. cbn [map].
      replace (xs ++ EnumInt64ToString i T :: map name (filter (fun i => bitflag.Has bflg i = true) l))
        with ((xs ++ [EnumInt64ToString i T]) ++ map name (filter (fun i => bitflag.Has bflg i = true) l))
        by (by rewrite <- app_assoc).
      rewrite <- IH.
      * f_equal. rewrite concat_snoc. destruct xs as [|x xs]; [done|].
        destruct (String.eqb_spec (String.concat "|" (x :: xs)) "") as [He|_]; [|done].
        exfalso. by apply (concat_nonempty "|" (x :: xs)).
      * apply Forall_app. split; [done|]. by apply Forall_singleton.
    + rewrite filter_cons_False by (by rewrite EH). by apply IH.
Qed.

Lemma StronglySorted_seqZ (m len : Z) : StronglySorted Z.lt (seqZ m len).
Proof.
  remember (Z.to_nat len) as k eqn:Ek. revert m len Ek.
  induction k as [|k IH]; intros m len Ek.
  - rewrite seqZ_nil by lia. constructor.
  - rewrite seqZ_cons by lia. constructor.
    + apply IH. lia.
    + apply Forall_seqZ. intros m' Hm'. lia.
Qed.

Lemma StronglySorted_filter {A} (R : A -> A -> Prop) (P : A -> Prop)
    `{forall x, Decision (P x)} (l : list A) :
  StronglySorted R l -> StronglySorted R (filter P l).
Proof.
  induction 1 as [|x l Hs IH Hx].
  - rewrite filter_nil. constructor.
  - destruct (decide (P x)) as [Hp|Hp].
    + rewrite filter_cons_True by done. constructor; [done|].
      rewrite Forall_forall in *. intros y [_ Hy]%list_elem_of_filter. by apply Hx.
    + by rewrite filter_cons_False.
Qed.

End CodecFacts.

Lemma set_ordinals_elem (bflg n i : Z) :
  i ∈ set_ordinals bflg n <-> 0 <= i < n /\ bitflag.Has bflg i = true.
Proof.
  unfold set_ordinals. rewrite list_elem_of_filter, elem_of_seqZ.
  split; intros [? ?]; (split; [|done]) || split; try done; lia.
Qed.

Lemma BitFlagsToString_concat (bflg : Z) (en : Value) :
  encodable (vType en) (EnumIfaceToInt64 en) = true ->
  BitFlagsToString bflg en =
    String.concat "|"
      (map (fun i => EnumInt64ToString i (vType en))
           (set_ordinals bflg (EnumIfaceToInt64 en))).
Proof.
  intros He. unfold BitFlagsToString, set_ordinals.
  change "" with (String.concat "|" []) at 1.
  rewrite (encode_loop (vType en)); [done| |constructor].
  apply Forall_seqZ. intros i Hi. apply (name_nonempty _ _ _ He). lia.
Qed.

(** C6. The encode of [bflg] for a type with count [N] is the ["|"]-join of
    the canonical names of the ordinals of [0 .. N-1] whose bit is set;
    these ordinals come in strictly ascending order, their names are
    pairwise different, and the result is empty when none of the bits is
    set. *)
Theorem BitFlagsToString_names (bflg : Z) (en : Value) :
  encodable (vType en) (EnumIfaceToInt64 en) = true ->
  BitFlagsToString bflg en =
    String.concat "|"
      (map (fun i => EnumInt64ToString i (vType en))
           (set_ordinals bflg (EnumIfaceToInt64 en))) /\
  (forall i, i ∈ set_ordinals bflg (EnumIfaceToInt64 en) <->
             0 <= i < EnumIfaceToInt64 en /\ bitflag.Has bflg i = true) /\
  (forall i, i ∈ set_ordinals bflg (EnumIfaceToInt64 en) ->
             Stringer.names (vType en) !! Z.to_nat i =
               Some (EnumInt64ToString i (vType en))) /\
  StronglySorted Z.lt (set_ordinals bflg (EnumIfaceToInt64 en)) /\
  NoDup (map (fun i => EnumInt64ToString i (vType en))
             (set_ordinals bflg (EnumIfaceToInt64 en))) /\
  ((forall i, 0 <= i < EnumIfaceToInt64 en -> bitflag.Has bflg i = false) ->
   BitFlagsToString bflg en = "").
Proof.
  intros He. pose proof (BitFlagsToString_concat bflg en He) as Hc.
  split; [done|]. split; [apply set_ordinals_elem|].
  split; [|split; [|split]].
  - intros i [Hi _]%set_ordinals_elem. by apply (name_lookup _ _ _ He).
  - apply StronglySorted_filter, StronglySorted_seqZ.
  - apply (NoDup_fmap_2_strong (fun i => EnumInt64ToString i (vType en))).
    + intros i j [Hi _]%set_ordinals_elem [Hj _]%set_ordinals_elem.
      by apply (name_inj _ _ _ _ He).
    + apply NoDup_filter, NoDup_seqZ.
  - intros Hnone. rewrite Hc.
    replace (set_ordinals bflg (EnumIfaceToInt64 en)) with (@nil Z); [done|].
    symmetry. apply elem_of_nil_inv.
    intros i [Hi Hh]%set_ordinals_elem. rewrite (Hnone i Hi) in Hh. done.
Qed.

Lemma BitFlagsToString_names_witness :
  BitFlagsToString 6 FlagsN = "HasKiFields|HasNoKiFields" /\
  set_ordinals 6 16 = [1; 2] /\
  BitFlagsToString 0 FlagsN = "".
Proof.
  assert (He : encodable (vType FlagsN) (EnumIfaceToInt64 FlagsN) = true)
    by (by vm_compute).
  split; [|split].
  - rewrite (proj1 (BitFlagsToString_names 6 FlagsN He)). reflexivity.
  - reflexivity.
  - apply (BitFlagsToString_names 0 FlagsN He). intros i Hi. reflexivity.
Defined.

(** ** Decode after encode *)

Section DecodeFacts.
Variable T : EnumType.
Variable n : Z.
Hypothesis Hdec : decodable T n = true.

Lemma decode_loop (l : list Z) (evv : Value) (acc : Z) (err : error) :
  vPtr evv = true -> vType evv = T -> Forall (fun i => 0 <= i < n) l ->
  exists evv' : Value,
    vPtr evv' = true /\ vType evv' = T /\
    foldl BitFlagsTypeFromString_step (evv, acc, err)
          (map (fun i => EnumInt64ToString i T) l) =
      (evv', foldl bitflag.Set_ acc l, match l with [] => err | _ :: _ => None end).
Proof.
  destruct (decodable_inv _ _ Hdec) as (He & Hf & _ & Hn).
  destruct (encodable_inv _ _ He) as (_ & Hnd & _).
  intros Hp Ht Hl. revert evv acc err Hp Ht.
  induction Hl as [|i l Hi Hl IH]; intros evv acc err Hp Ht.
  - exists evv. done.
  - cbn [map foldl]. unfold BitFlagsTypeFromString_step at 2.
    rewrite SetEnumValueFromString_nil by (by rewrite ?Ht).
    rewrite Ht, (FromString_known T _ (Z.to_nat i)) by
      (done || by apply (name_lookup _ _ _ He)).
    cbn [fst]. unfold EnumIfaceToInt64 at 1. cbn [vInt store].
    rewrite Z2Nat.id by lia. unfold Int.int64. rewrite wrap_small by lia.
    destruct (IH (store evv i) (bitflag.Set_ acc i) None Hp Ht)
      as (evv' & Hp' & Ht' & Hfold).
    exists evv'. split; [done|]. split; [done|].
    rewrite Hfold. by destruct l.
Qed.

End DecodeFacts.

Lemma bitsOf_testbit (S : list Z) (k : Z) :
  Forall (fun i => 0 <= i < 63) S -> 0 <= k ->
  Z.testbit (bitsOf S) k = bool_decide (k ∈ S).
Proof.
  intros HS Hk. unfold bitsOf.
  by rewrite foldl_Set_testbit, Z.bits_0 by done.
Qed.

(** The ordinals that the encode writes for the pattern of [S] are those
    of [S]. *)
Lemma set_ordinals_bitsOf (S : list Z) (n i : Z) :
  n <= 63 -> Forall (fun i => 0 <= i < n) S ->
  i ∈ set_ordinals (bitsOf S) n <-> i ∈ S.
Proof.
  intros Hn HS.
  assert (HS' : Forall (fun i => 0 <= i < 63) S).
  { eapply Forall_impl; [exact HS|]. simpl. lia. }
  rewrite set_ordinals_elem. rewrite Forall_forall in HS. split.
  - intros [Hi Hh]. rewrite Has_testbit, bitsOf_testbit in Hh by (done || lia).
    by apply bool_decide_eq_true_1 in Hh.
  - intros Hi. split; [by apply HS|].
    specialize (HS _ Hi).
    rewrite Has_testbit, bitsOf_testbit by (done || lia).
    by apply bool_decide_eq_true_2.
Qed.

(** C4. For the empty set of ordinals of [Flags] the encoded pattern is
    the empty string, and its decode returns [nil] with the bit of ordinal
    0 in the accumulator, which is not the pattern of the empty set. *)
Theorem decode_encode_empty_set :
  bitsOf [] = 0 /\
  BitFlagsToString (bitsOf []) FlagsN = "" /\
  BitFlagsTypeFromString 0 (BitFlagsToString (bitsOf []) FlagsN) Flags 16 = (1, None) /\
  fst (BitFlagsTypeFromString 0 (BitFlagsToString (bitsOf []) FlagsN) Flags 16)
    <> bitsOf [].
Proof. repeat (split; [reflexivity|]). vm_compute. discriminate. Qed.

(** For a type whose canonical names are distinct, not empty and without
    ["|"], with a count [N] of at most 63, and for every set [S] of ordinals
    of [0 .. N-1] that is not empty, the decode, from an empty accumulator,
    of the encoded pattern of [S] returns [nil] and leaves the pattern of
    [S] in the accumulator. *)
Lemma decode_encode_nonempty (en : Value) (S : list Z) :
  decodable (vType en) (EnumIfaceToInt64 en) = true ->
  S <> [] ->
  Forall (fun i => 0 <= i < EnumIfaceToInt64 en) S ->
  BitFlagsTypeFromString 0 (BitFlagsToString (bitsOf S) en)
                         (vType en) (EnumIfaceToInt64 en) =
    (bitsOf S, None).
Proof.
  intros Hdec Hne HS.
  set (T := vType en) in *. set (n := EnumIfaceToInt64 en) in *.
  destruct (decodable_inv _ _ Hdec) as (He & Hf & Hpipe & Hn).
  set (ords := set_ordinals (bitsOf S) n).
  assert (Hords : forall i, i ∈ ords <-> i ∈ S)
    by (intros i; by apply set_ordinals_bitsOf).
  assert (Hrange : Forall (fun i => 0 <= i < n) ords).
  { apply Forall_forall. intros i Hi%Hords.
    rewrite Forall_forall in HS. by apply HS. }
  assert (Hnil : ords <> []).
  { destruct S as [|i S]; [done|].
    intros Hnil. assert (i ∈ ords) as Hi by (apply Hords; left).
    rewrite Hnil in Hi. by apply elem_of_nil in Hi. }
  rewrite (BitFlagsToString_concat _ en He). fold T n ords.
  unfold BitFlagsTypeFromString.
  rewrite (Split_concat _ "|").
  - destruct (decode_loop T n Hdec ords (New T) 0 None eq_refl eq_refl Hrange)
      as (evv' & _ & _ & Hfold).
    match goal with
    | |- context [foldl ?f ?a ?l] =>
        replace (foldl f a l)
          with (evv', foldl bitflag.Set_ 0 ords,
                match ords with [] => @None string | _ :: _ => None end)
          by (symmetry; exact Hfold)
    end.
    f_equal; [|by destruct ords].
    apply Z.bits_inj'. intros k Hk.
    assert (Forall (fun i => 0 <= i < 63) ords)
      by (eapply Forall_impl; [exact Hrange|]; simpl; lia).
    assert (Forall (fun i => 0 <= i < 63) S)
      by (eapply Forall_impl; [exact HS|]; simpl; lia).
    rewrite foldl_Set_testbit, Z.bits_0, bitsOf_testbit by done.
    simpl. apply bool_decide_ext, Hords.
  - by destruct ords.
  - apply Forall_forall. intros s Hs.
    apply list_elem_of_fmap in Hs as (i & -> & Hi).
    pose proof (proj1 (Forall_forall _ _) Hrange) as Hr.
    pose proof (proj1 (Forall_forall _ _) Hpipe) as Hp.
    apply Hp. eapply list_elem_of_lookup_2.
    apply (name_lookup _ _ _ He). by apply Hr.
Qed.

Example decode_encode_Flags :
  bitsOf [1; 4] = 18 /\
  BitFlagsToString 18 FlagsN = "HasKiFields|OnlySelfUpdate" /\
  BitFlagsTypeFromString 0 "HasKiFields|OnlySelfUpdate" Flags 16 = (18, None).
Proof.
  split; [reflexivity|]. split; [reflexivity|].
  apply (decode_encode_nonempty FlagsN [1; 4]).
  - by vm_compute.
  - discriminate.
  - repeat constructor; by vm_compute.
Qed.

(** * Further properties *)

(** ** The generated methods *)

Section StringerMore.
Variable T : EnumType.

(** A parse that returns [nil] has set the receiver to an ordinal of the
    table, the first one that [String] prints as the parsed string. *)
Theorem FromString_sound (recv j : Z) (s : string) :
  Stringer.FromString T recv s = (j, None) ->
  0 <= j < Z.of_nat (Stringer.count T) /\
  Stringer.String_ T j = s /\
  forall i, 0 <= i < j -> Stringer.String_ T i <> s.
Proof.
  unfold Stringer.FromString.
  destruct (Stringer.FromString_loop T s 0 (Stringer.count T)) as [k|] eqn:E; [|done].
  intros [= <-]. destruct (loop_Some _ _ _ _ _ E) as (Hk & Hs & Hfirst).
  split; [lia|]. split.
  - unfold Stringer.String_.
    replace (Z.of_nat k <? 0) with false by lia.
    replace (Z.of_nat k >=? Z.of_nat (Stringer.count T)) with false by lia.
    simpl. by rewrite Nat2Z.id.
  - intros i Hi. unfold Stringer.String_.
    replace (i <? 0) with false by lia.
    replace (i >=? Z.of_nat (Stringer.count T)) with false by lia.
    simpl. apply Hfirst. lia.
Qed.

End StringerMore.

Lemma FromString_sound_witness :
  Flags_String 7 = "NodeMoved" /\ 0 <= 7 < 17.
Proof.
  destruct (FromString_sound Flags 0 7 "NodeMoved" eq_refl) as (Hr & Hs & _).
  split; [exact Hs | exact Hr].
Defined.

Lemma FormatInt10_inj (i j : Z) : Str.FormatInt10 i = Str.FormatInt10 j -> i = j.
Proof.
  unfold Str.FormatInt10. intros H.
  assert (Hn : forall z, Z.to_int z <> Decimal.Pos Decimal.Nil /\
                         Z.to_int z <> Decimal.Neg Decimal.Nil).
  { intros [|p|p]; simpl; split; try discriminate;
      intros [= Hp]; by apply DecimalPos.Unsigned.to_uint_nonnil in Hp. }
  apply DecimalZ.to_int_inj.
  assert (Some (Z.to_int i) = Some (Z.to_int j)) as [= ->]; [|done].
  rewrite <- (NilZero.isi (Z.to_int i)), <- (NilZero.isi (Z.to_int j));
    [by rewrite H | apply Hn | apply Hn | apply Hn | apply Hn].
Qed.

Lemma append_inj_l (a x y : string) : a +:+ x = a +:+ y -> x = y.
Proof.
  induction a as [|c a IH]; [done|].
  rewrite !append_cons. intros [= H]. by apply IH.
Qed.

Lemma append_char_inj_r (x y : string) (c : ascii) :
  x +:+ String c "" = y +:+ String c "" -> x = y.
Proof.
  revert y. induction x as [|a x IH]; intros [|b y].
  - done.
  - rewrite append_cons. intros [= _ H]. symmetry in H.
    apply append_empty_inv in H as [_ H]. discriminate H.
  - rewrite append_cons. intros [= _ H].
    apply append_empty_inv in H as [_ H]. discriminate H.
  - rewrite !append_cons. intros [= -> H]. f_equal. by apply IH.
Qed.

(** [String] prints different [Flags] differently, in range or not. *)
Theorem Flags_String_inj (i j : Z) :
  i <> j -> Flags_String i <> Flags_String j.
Proof.
  intros Hne H. apply Hne. clear Hne.
  assert (Hin : forall k, 0 <= k < 17 ->
            Stringer.names Flags !! Z.to_nat k = Some (Flags_String k)).
  { intros k Hk. apply String_in_range. by rewrite Flags_count. }
  assert (Hout : forall k, ~ 0 <= k < 17 ->
            Flags_String k = "Flags(" +:+ Str.FormatInt10 k +:+ ")").
  { intros k Hk. apply (String_fallback Flags). rewrite Flags_count. lia. }
  assert (Hmix : forall a b, 0 <= a < 17 -> ~ 0 <= b < 17 ->
            Flags_String a <> Flags_String b).
  { intros a b Ha Hb Heq. apply (Flags_fallback_no_name (Str.FormatInt10 b +:+ ")")).
    rewrite <- (Hout b Hb), <- Heq. eapply list_elem_of_lookup_2. by apply Hin. }
  destruct (decide (0 <= i < 17)) as [Hi|Hi], (decide (0 <= j < 17)) as [Hj|Hj].
  - pose proof (Hin i Hi) as Hli. pose proof (Hin j Hj) as Hlj.
    rewrite H in Hli.
    pose proof (NoDup_lookup _ _ _ _ Flags_names_NoDup Hli Hlj). lia.
  - by destruct (Hmix i j Hi Hj).
  - by destruct (Hmix j i Hj Hi).
  - rewrite (Hout i Hi), (Hout j Hj) in H.
    apply append_inj_l in H.
    apply (append_char_inj_r _ _ ")") in H. by apply FormatInt10_inj.
Qed.

Lemma Flags_String_inj_witness :
  Flags_String 3 <> Flags_String 17 /\ Flags_String (-1) <> Flags_String 1.
Proof.
  split; [apply (Flags_String_inj 3 17) | apply (Flags_String_inj (-1) 1)]; lia.
Defined.

(** ** Conversions between an enum and [int64] *)

Section IntFacts.

Lemma pow2_half (w : Z) : 0 < w -> 2 ^ w = 2 * 2 ^ (w - 1).
Proof. intros Hw. rewrite <- Z.pow_succ_r by lia. f_equal. lia. Qed.

Lemma wrap_id (w z : Z) :
  0 < w -> - 2 ^ (w - 1) <= z < 2 ^ (w - 1) -> Int.wrap w z = z.
Proof.
  intros Hw Hz. destruct (Z.le_gt_cases 0 z) as [Hpos|Hneg].
  - apply wrap_small. lia.
  - unfold Int.wrap. pose proof (pow2_half w Hw) as Hp.
    assert (Hm : z mod 2 ^ w = z + 2 ^ w).
    { rewrite <- (Z_mod_plus_full z 1 (2 ^ w)). rewrite Z.mod_small; lia. }
    rewrite Hm. replace (z + 2 ^ w <? 2 ^ (w - 1)) with false by lia. lia.
Qed.

Lemma wrap_bounds (w z : Z) :
  0 < w -> - 2 ^ (w - 1) <= Int.wrap w z < 2 ^ (w - 1).
Proof.
  intros Hw. unfold Int.wrap. pose proof (pow2_half w Hw) as Hp.
  assert (0 < 2 ^ w) by (apply Z.pow_pos_nonneg; lia).
  pose proof (Z.mod_pos_bound z (2 ^ w) ltac:(lia)) as Hb.
  destruct (Z.ltb_spec (z mod 2 ^ w) (2 ^ (w - 1))); lia.
Qed.

End IntFacts.

(** An [int64] made into an enum and read back is the integer cut to the
    width of the enum's type, and is the integer itself when it fits. *)
Theorem EnumIfaceFromInt64_ToInt64 (T : EnumType) (ival : Z) :
  0 < Bits T <= 64 ->
  EnumIfaceToInt64 (EnumIfaceFromInt64 ival T) = Int.wrap (Bits T) ival /\
  (- 2 ^ (Bits T - 1) <= ival < 2 ^ (Bits T - 1) ->
   EnumIfaceToInt64 (EnumIfaceFromInt64 ival T) = ival).
Proof.
  intros Hb.
  assert (H : EnumIfaceToInt64 (EnumIfaceFromInt64 ival T) = Int.wrap (Bits T) ival).
  { unfold EnumIfaceToInt64, EnumIfaceFromInt64, Int.int64. simpl.
    apply wrap_id; [lia|]. pose proof (wrap_bounds (Bits T) ival ltac:(lia)) as Hw.
    assert (2 ^ (Bits T - 1) <= 2 ^ (64 - 1)) by (apply Z.pow_le_mono_r; lia).
    lia. }
  split; [done|]. intros Hr. rewrite H. apply wrap_id; [lia|done].
Qed.

Lemma EnumIfaceFromInt64_ToInt64_witness :
  EnumIfaceToInt64 (EnumIfaceFromInt64 (-5) TestFlags) = -5 /\
  EnumIfaceToInt64 (EnumIfaceFromInt64 (2 ^ 32 + 1) TestFlags) = 1.
Proof.
  destruct (EnumIfaceFromInt64_ToInt64 TestFlags (-5)) as [_ H1]; [by vm_compute|].
  destruct (EnumIfaceFromInt64_ToInt64 TestFlags (2 ^ 32 + 1)) as [H2 _]; [by vm_compute|].
  split; [apply H1; by vm_compute | exact H2].
Defined.

(** [EnumIfaceFromString] gives the enum of the ordinal for a canonical
    name, and for every other string the zero of the type, as it does for
    the name of ordinal 0: nothing tells the two apart. *)
Theorem EnumIfaceFromString_result (T : EnumType) (s : string) :
  HasFromString T = true ->
  (s ∉ Stringer.names T ->
   EnumIfaceFromString s T = {| vPtr := false; vType := T; vInt := 0 |}) /\
  (forall j : nat, NoDup (Stringer.names T) -> Stringer.names T !! j = Some s ->
   EnumIfaceFromString s T = {| vPtr := false; vType := T; vInt := Z.of_nat j |}).
Proof.
  intros Hm. unfold EnumIfaceFromString. split.
  - intros Hs. rewrite SetEnumValueFromString_nil by done.
    simpl. by rewrite FromString_unknown.
  - intros j Hnd Hj. rewrite SetEnumValueFromString_nil by done.
    simpl. by rewrite (FromString_known T 0 j s).
Qed.

Lemma EnumIfaceFromString_result_witness :
  EnumIfaceFromString "Bogus" Flags = EnumIfaceFromString "IsField" Flags /\
  EnumIfaceFromString "NodeMoved" Flags = {| vPtr := false; vType := Flags; vInt := 7 |}.
Proof.
  destruct (EnumIfaceFromString_result Flags "Bogus" eq_refl) as [H1 _].
  destruct (EnumIfaceFromString_result Flags "IsField" eq_refl) as [_ H2].
  destruct (EnumIfaceFromString_result Flags "NodeMoved" eq_refl) as [_ H3].
  split.
  - rewrite H1 by (apply (bool_decide_unpack _); by vm_compute).
    rewrite (H2 0%nat) by (apply (bool_decide_unpack _); by vm_compute || reflexivity).
    reflexivity.
  - apply (H3 7%nat); [apply (bool_decide_unpack _); by vm_compute | reflexivity].
Defined.

(** ** More on the bit-flag codec *)

Lemma BitFlagsTypeFromString_fst (bflg : Z) (str : string) (et : EnumType) (n : Z) :
  fst (BitFlagsTypeFromString bflg str et n) =
    snd (fst (foldl BitFlagsTypeFromString_step (New et, bflg, None)
                    (Str.Split str "|"))).
Proof.
  unfold BitFlagsTypeFromString.
  by destruct (foldl _ _ _) as [[evv acc] err].
Qed.

Lemma decode_step_keeps (l : list string) (st : Value * Z * error) (k : Z) :
  Z.testbit (snd (fst st)) k = true ->
  Z.testbit (snd (fst (foldl BitFlagsTypeFromString_step st l))) k = true.
Proof.
  revert st. induction l as [|flg l IH]; intros st Hk; [done|].
  cbn [foldl]. apply IH. destruct st as [[evv acc] err].
  unfold BitFlagsTypeFromString_step.
  destruct (SetEnumValueFromString evv flg) as [evv' [e|]]; [done|].
  cbn [fst snd] in *. unfold bitflag.Set_.
  by rewrite Z.lor_spec, Hk.
Qed.

(** The decode only adds bits: a bit that is set in the accumulator before
    the call is set after it, whatever the string and the type. *)
Theorem BitFlagsTypeFromString_keeps_bits (bflg : Z) (str : string) (et : EnumType)
    (n k : Z) :
  Z.testbit bflg k = true ->
  Z.testbit (fst (BitFlagsTypeFromString bflg str et n)) k = true.
Proof.
  intros Hk. rewrite BitFlagsTypeFromString_fst. by apply decode_step_keeps.
Qed.

Lemma BitFlagsTypeFromString_keeps_bits_witness :
  Z.testbit (fst (BitFlagsTypeFromString 4 "Bogus|NodeAdded" Flags 16)) 2 = true.
Proof. apply BitFlagsTypeFromString_keeps_bits. reflexivity. Defined.

Lemma BitFlagsTypeFromString_names_holds (T : EnumType) (n acc : Z) (l : list Z) :
  decodable T n = true ->
  l <> [] -> Forall (fun i => 0 <= i < n) l ->
  BitFlagsTypeFromString acc
    (String.concat "|" (map (fun i => EnumInt64ToString i T) l)) T n =
    (foldl bitflag.Set_ acc l, None) /\
  forall k, 0 <= k ->
    Z.testbit (foldl bitflag.Set_ acc l) k = Z.testbit acc k || bool_decide (k ∈ l).
Proof.
  intros Hdec Hne Hl.
  destruct (decodable_inv _ _ Hdec) as (He & Hf & Hpipe & Hn).
  split.
  - unfold BitFlagsTypeFromString. rewrite (Split_concat _ "|").
    + destruct (decode_loop T n Hdec l (New T) acc None eq_refl eq_refl Hl)
        as (evv' & _ & _ & Hfold).
      match goal with
      | |- context [foldl ?f ?a ?xs] =>
          replace (foldl f a xs)
            with (evv', foldl bitflag.Set_ acc l,
                  match l with [] => @None string | _ :: _ => None end)
            by (symmetry; exact Hfold)
      end.
      by destruct l.
    + by destruct l.
    + apply Forall_forall. intros s Hs.
      apply list_elem_of_fmap in Hs as (i & -> & Hi).
      pose proof (proj1 (Forall_forall _ _) Hl) as Hr.
      pose proof (proj1 (Forall_forall _ _) Hpipe) as Hp.
      apply Hp. eapply list_elem_of_lookup_2.
      apply (name_lookup _ _ _ He). by apply Hr.
  - intros k Hk. apply foldl_Set_testbit; [|done].
    eapply Forall_impl; [exact Hl|]. simpl. lia.
Qed.

(** The decode takes the canonical names in any order and any number of
    times: for names of ordinals below the count, joined by ["|"], it returns
    [nil] and has set the bits of these ordinals in the accumulator. *)
Theorem BitFlagsTypeFromString_names (T : EnumType) (n acc : Z) (l : list Z) :
  decodable T n = true ->
  l <> [] -> Forall (fun i => 0 <= i < n) l ->
  BitFlagsTypeFromString acc
    (String.concat "|" (map (fun i => EnumInt64ToString i T) l)) T n =
    (foldl bitflag.Set_ acc l, None) /\
  forall k, 0 <= k ->
    Z.testbit (foldl bitflag.Set_ acc l) k = Z.testbit acc k || bool_decide (k ∈ l).
Proof. exact (BitFlagsTypeFromString_names_holds T n acc l). Qed.

Lemma BitFlagsTypeFromString_names_witness :
  BitFlagsTypeFromString 0 "NodeAdded|IsField|NodeAdded" Flags 16 = (33, None).
Proof.
  apply (BitFlagsTypeFromString_names Flags 16 0 [5; 0; 5]).
  - by vm_compute.
  - discriminate.
  - repeat constructor; by vm_compute.
Defined.

Lemma encode_fold_ext (b1 b2 : Z) (et : EnumType) (l : list Z) (str : string) :
  (forall i, i ∈ l -> bitflag.Has b1 i = bitflag.Has b2 i) ->
  foldl (BitFlagsToString_step b1 et) str l =
  foldl (BitFlagsToString_step b2 et) str l.
Proof.
  revert str. induction l as [|i l IH]; intros str H; [done|].
  cbn [foldl]. unfold BitFlagsToString_step at 2 4.
  rewrite (H i) by left. apply IH. intros j Hj. apply H. by right.
Qed.

(** The encode reads the bits of the ordinals below the count only: two
    patterns that agree on them are written alike. *)
Theorem BitFlagsToString_low_bits (b1 b2 : Z) (en : Value) :
  EnumIfaceToInt64 en <= 63 ->
  (forall i, 0 <= i < EnumIfaceToInt64 en -> Z.testbit b1 i = Z.testbit b2 i) ->
  BitFlagsToString b1 en = BitFlagsToString b2 en.
Proof.
  intros Hn Hb. unfold BitFlagsToString. apply encode_fold_ext.
  intros i Hi%elem_of_seqZ. rewrite !Has_testbit by lia. apply Hb. lia.
Qed.

Lemma BitFlagsToString_low_bits_witness :
  BitFlagsToString (6 + 2 ^ 40) FlagsN = "HasKiFields|HasNoKiFields".
Proof.
  rewrite (BitFlagsToString_low_bits (6 + 2 ^ 40) 6 FlagsN).
  - reflexivity.
  - by vm_compute.
  - intros i Hi.
    change (EnumIfaceToInt64 FlagsN) with 16 in Hi.
    rewrite <- (Z.mod_pow2_bits_low (6 + 2 ^ 40) 16 i) by lia.
    by replace ((6 + 2 ^ 40) mod 2 ^ 16) with 6 by (by vm_compute).
Defined.

(** ** Marshaling *)

Section HasFacts.

Lemma mask_high (i : Z) : 64 <= i -> bitflag.mask i = 0.
Proof.
  intros Hi. unfold bitflag.mask, Int.int64, Int.wrap.
  rewrite Z.shiftl_1_l.
  replace (2 ^ i) with (2 ^ (i - 64) * 2 ^ 64)
    by (rewrite <- Z.pow_add_r by lia; f_equal; lia).
  rewrite Z.mod_mul by lia. reflexivity.
Qed.

(** No bit of a non-negative [int64] is read at position 63 or above. *)
Lemma Has_high (v i : Z) : 0 <= v < 2 ^ 63 -> 63 <= i -> bitflag.Has v i = false.
Proof.
  intros Hv Hi. unfold bitflag.Has.
  destruct (decide (i = 63)) as [->|Hne].
  - change (bitflag.mask 63) with (Z.lnot (Z.ones 63)).
    rewrite <- Z.ldiff_land, Z.ldiff_ones_r by lia.
    rewrite Z.shiftr_div_pow2, Z.div_small by lia. reflexivity.
  - rewrite mask_high by lia. by rewrite Z.land_0_r.
Qed.

Lemma Has_above (v i : Z) :
  0 <= i -> 0 <= v < 2 ^ i -> v < 2 ^ 63 -> bitflag.Has v i = false.
Proof.
  intros Hi Hv Hv'. destruct (Z.lt_ge_cases i 63) as [Hlt|Hge].
  - rewrite Has_testbit by lia.
    rewrite <- (Z.mod_small v (2 ^ i)) by lia.
    apply Z.mod_pow2_bits_high. lia.
  - apply Has_high; lia.
Qed.

Lemma encode_fold_unset (b : Z) (et : EnumType) (l : list Z) (str : string) :
  (forall i, i ∈ l -> bitflag.Has b i = false) ->
  foldl (BitFlagsToString_step b et) str l = str.
Proof.
  revert str. induction l as [|i l IH]; intros str H; [done|].
  cbn [foldl]. unfold BitFlagsToString_step at 2.
  rewrite (H i) by left. apply IH. intros j Hj. apply H. by right.
Qed.

(** The loop of the encode up to [m] is the loop up to [n], when no bit is
    read from [n] on. *)
Lemma encode_fold_cut (b : Z) (et : EnumType) (n m : Z) :
  0 <= n <= m -> (forall i, n <= i < m -> bitflag.Has b i = false) ->
  foldl (BitFlagsToString_step b et) "" (seqZ 0 m) =
  foldl (BitFlagsToString_step b et) "" (seqZ 0 n).
Proof.
  intros Hn Hb. replace m with (n + (m - n)) by lia.
  rewrite seqZ_app by lia. rewrite foldl_app.
  apply encode_fold_unset. intros i Hi%elem_of_seqZ. apply Hb. lia.
Qed.

End HasFacts.

Lemma append_nil_l (s : string) : "" +:+ s = s.
Proof. reflexivity. Qed.

(** A bit-flag enum (not a pointer to one) is marshaled with the value
    itself in the place of the count.  For a value within the [N] bits of
    its type the text is still the encode with the count [N], and the JSON
    form is that text between two double quotes. *)
Theorem EnumMarshalText_bitflag (Enums_ : EnumRegistry) (eval enN : Value) :
  vPtr eval = false ->
  Registry.IsBitFlag Enums_ (vType eval) = true ->
  vType enN = vType eval ->
  EnumIfaceToInt64 enN <= 63 ->
  0 <= EnumIfaceToInt64 eval < 2 ^ EnumIfaceToInt64 enN ->
  EnumMarshalText Enums_ eval =
    (BitFlagsToString (EnumIfaceToInt64 eval) enN, None) /\
  EnumMarshalJSON Enums_ eval =
    (dquote +:+ BitFlagsToString (EnumIfaceToInt64 eval) enN +:+ dquote, None).
Proof.
  intros Hnp Hbf Hty HN Hv.
  set (v := EnumIfaceToInt64 eval) in *. set (N := EnumIfaceToInt64 enN) in *.
  assert (0 <= N) by (destruct (Z.le_gt_cases 0 N); [done|];
                      rewrite Z.pow_neg_r in Hv; lia).
  assert (Hv63 : v < 2 ^ 63).
  { assert (2 ^ N <= 2 ^ 63) by (apply Z.pow_le_mono_r; lia). lia. }
  assert (Heq : BitFlagsToString v eval = BitFlagsToString v enN).
  { unfold BitFlagsToString. fold v N. rewrite Hty.
    set (m := Z.min v N).
    assert (Hcut : forall i, m <= i -> bitflag.Has v i = false).
    { intros i Hi. apply Has_above; [lia| |done]. split; [lia|].
      destruct (Z.le_gt_cases N i) as [HNi|HNi].
      - assert (2 ^ N <= 2 ^ i) by (apply Z.pow_le_mono_r; lia). lia.
      - assert (i < 2 ^ i) by (apply Z.pow_gt_lin_r; lia). lia. }
    rewrite (encode_fold_cut v _ m v); [|lia|intros; apply Hcut; lia].
    rewrite (encode_fold_cut v _ m N); [|lia|intros; apply Hcut; lia].
    done. }
  unfold EnumMarshalText, EnumMarshalJSON, IsBitFlag_TypeOf.
  rewrite Hnp, Hbf. fold v.
  rewrite Heq, !append_nil_l. split; [done|]. by rewrite append_assoc.
Qed.

Lemma EnumMarshalText_bitflag_witness :
  EnumMarshalText reg_once {| vPtr := false; vType := TestFlags; vInt := 6 |} =
    ("TestFlag1|TestFlag2", None).
Proof.
  apply (EnumMarshalText_bitflag reg_once
           {| vPtr := false; vType := TestFlags; vInt := 6 |} TestFlagsN);
    by vm_compute.
Defined.

(** ** [AddEnum] on any registry *)

Section AddEnumFacts.
Variable en : Value.
Variable bitFlag : bool.
Variable props : option (gmap string PropVal).

Local Abbreviation typ := (vType en).
Local Abbreviation snm := (ShortTypeName (vType en)).
Local Abbreviation n := (EnumIfaceToInt64 en).

Lemma AddEnum_made (tr : EnumRegistry) (es : gmap string EnumType)
    (ps : gmap string (gmap string PropVal)) :
  Enums tr = Some es -> Props tr = Some ps ->
  Registry.AddEnum tr en bitFlag props =
    Some ({| Enums := Some (<[snm := typ]> es);
             Props := Some (<[snm := registered_props (ps !! snm) n bitFlag props]> ps);
             Vals := Vals tr |}, typ).
Proof.
  intros He Hp.
  unfold Registry.AddEnum, Registry.Properties, Registry.set_prop,
    registered_props, map_put, map_get.
  destruct props as [p|]; [|destruct (ps !! snm) as [tp|] eqn:E];
    destruct bitFlag;
    repeat first [rewrite He | rewrite Hp | rewrite lookup_insert_eq
                 | rewrite E | progress simpl];
    rewrite ?insert_insert_eq; try done.
Qed.

Lemma AddEnum_fresh (tr : EnumRegistry) :
  Enums tr = None ->
  Registry.AddEnum tr en bitFlag props =
    Some ({| Enums := Some {[snm := typ]};
             Props := Some {[snm := registered_props None n bitFlag props]};
             Vals := Some ∅ |}, typ).
Proof.
  intros He.
  assert (H : Registry.AddEnum tr en bitFlag props =
              Registry.AddEnum {| Enums := Some ∅; Props := Some ∅; Vals := Some ∅ |}
                               en bitFlag props).
  { unfold Registry.AddEnum. by rewrite He. }
  rewrite H, (AddEnum_made {| Enums := Some ∅; Props := Some ∅; Vals := Some ∅ |}
               ∅ ∅ eq_refl eq_refl). simpl.
  by rewrite lookup_empty, !insert_empty.
Qed.

Lemma AddEnum_nil_props (tr : EnumRegistry) :
  is_Some (Enums tr) -> Props tr = None ->
  Registry.AddEnum tr en bitFlag props = None.
Proof.
  intros [es He] Hp.
  unfold Registry.AddEnum, Registry.Properties, Registry.set_prop, map_put, map_get.
  destruct props as [p|];
    repeat first [rewrite He | rewrite Hp | progress simpl]; done.
Qed.

Lemma AddEnum_panics_holds (tr : EnumRegistry) :
  Registry.AddEnum tr en bitFlag props = None <->
  is_Some (Enums tr) /\ Props tr = None.
Proof.
  split.
  - intros H. destruct (Enums tr) as [es|] eqn:He.
    + split; [by eexists|]. destruct (Props tr) as [ps|] eqn:Hp; [|done].
      by rewrite (AddEnum_made tr es ps) in H.
    + by rewrite AddEnum_fresh in H.
  - intros [He Hp]. by apply AddEnum_nil_props.
Qed.

(** [AddEnum] panics on no registry but one made by hand with [Enums] set
    and [Props] left [nil]. *)
Theorem AddEnum_panics (tr : EnumRegistry) :
  Registry.AddEnum tr en bitFlag props = None <->
  is_Some (Enums tr) /\ Props tr = None.
Proof. exact (AddEnum_panics_holds tr). Qed.

(** After [AddEnum] the type is found under its short name.  On a registry
    whose [Enums] is made, the cached values and the types and properties
    under every other name stay; a registry whose [Enums] is [nil] is
    started afresh and holds this one type only. *)
Theorem AddEnum_registers (tr tr' : EnumRegistry) (t : EnumType) :
  Registry.AddEnum tr en bitFlag props = Some (tr', t) ->
  t = typ /\ RegistryExt.Enum tr' snm = Some typ /\
  RegistryExt.TypeRegistered tr' typ = true /\
  forall name : string, name <> snm ->
    match Enums tr with
    | Some _ =>
        Vals tr' = Vals tr /\ RegistryExt.Enum tr' name = RegistryExt.Enum tr name /\
        forall k, Registry.Prop_ tr' name k = Registry.Prop_ tr name k
    | None =>
        Vals tr' = Some ∅ /\ RegistryExt.Enum tr' name = None /\
        forall k, Registry.Prop_ tr' name k = None
    end.
Proof.
  intros H. unfold RegistryExt.Enum, RegistryExt.TypeRegistered, Registry.Prop_.
  destruct (Enums tr) as [es|] eqn:He.
  - destruct (Props tr) as [ps|] eqn:Hp;
      [|by rewrite AddEnum_nil_props in H].
    rewrite (AddEnum_made tr es ps He Hp) in H. injection H as <- <-. simpl.
    rewrite lookup_insert_eq. repeat split; try done.
    + by rewrite lookup_insert_ne.
    + intros k. simpl. by rewrite lookup_insert_ne.
  - rewrite (AddEnum_fresh tr He) in H. injection H as <- <-. simpl.
    rewrite lookup_singleton_eq. repeat split; try done.
    + by rewrite lookup_singleton_ne.
    + intros k. by rewrite lookup_singleton_ne.
Qed.

(** Properties given to [AddEnum] take the place of all that the type had:
    a key other than ["N"] and ["BitFlag"] then reads as in the given
    map, so an earlier ["AltStrings"] is gone; without given properties such
    a key reads as before. *)
Theorem AddEnum_other_keys (tr tr' : EnumRegistry) (t : EnumType) (k : string) :
  Registry.AddEnum tr en bitFlag props = Some (tr', t) ->
  k <> "N" -> k <> "BitFlag" ->
  Registry.Prop_ tr' snm k =
    match props with
    | Some p => p !! k
    | None => match Enums tr with
              | Some _ => Registry.Prop_ tr snm k
              | None => None
              end
    end.
Proof.
  intros H HkN HkB. unfold Registry.Prop_.
  assert (Hreg : forall old, registered_props old n bitFlag props !! k =
            match props with Some p => p !! k | None => default ∅ old !! k end).
  { intros old. unfold registered_props.
    destruct bitFlag; rewrite ?lookup_insert_ne by done; by destruct props. }
  destruct (Enums tr) as [es|] eqn:He.
  - destruct (Props tr) as [ps|] eqn:Hp;
      [|by rewrite AddEnum_nil_props in H].
    rewrite (AddEnum_made tr es ps He Hp) in H. injection H as <- <-. simpl.
    rewrite lookup_insert_eq, Hreg. destruct props; [done|].
    by destruct (ps !! snm).
  - rewrite (AddEnum_fresh tr He) in H. injection H as <- <-. simpl.
    rewrite lookup_singleton_eq, Hreg. by destruct props.
Qed.

End AddEnumFacts.

Lemma AddEnum_panics_witness :
  Registry.AddEnum {| Enums := Some ∅; Props := None; Vals := None |}
                   TestFlagsN false None = None.
Proof.
  apply AddEnum_panics. split; [by eexists | reflexivity].
Defined.

Lemma AddEnum_registers_witness :
  RegistryExt.Enum reg_once "kit.TestFlags" = Some TestFlags /\
  RegistryExt.TypeRegistered reg_once TestFlags = true.
Proof.
  destruct (AddEnum_registers TestFlagsN true None zero_registry reg_once TestFlags)
    as (_ & H1 & H2 & _); [by vm_compute|].
  split; [exact H1 | exact H2].
Defined.

Lemma AddEnum_other_keys_witness :
  Registry.AddEnum reg_test TestFlagsN false (Some ∅) = Some (reg_test_again, TestFlags) /\
  Registry.AltStrings reg_test "kit.TestFlags" <> None /\
  Registry.Prop_ reg_test_again "kit.TestFlags" "AltStrings" = None.
Proof.
  assert (E : Registry.AddEnum reg_test TestFlagsN false (Some ∅)
              = Some (reg_test_again, TestFlags)) by (by vm_compute).
  split; [exact E|]. split; [by vm_compute|].
  exact (AddEnum_other_keys TestFlagsN false (Some ∅) reg_test reg_test_again
           TestFlags "AltStrings" E ltac:(done) ltac:(done)).
Defined.

(** ** [Values] *)

Section ValuesFacts.
Variable tr : EnumRegistry.
Variable enumName : string.
Variable alt : bool.

Lemma Values_elem_Some (alts : option (gmap Z string)) (et : EnumType) (i : Z) :
  Registry.Values_elem alts (Some et) alt i = Some (value_entry alts et alt i).
Proof. unfold Registry.Values_elem, value_entry. simpl. by destruct alts. Qed.

Lemma Values_mapM_Some (alts : option (gmap Z string)) (et : EnumType) (l : list Z) :
  mapM (Registry.Values_elem alts (Some et) alt) l =
    Some (value_entry alts et alt <$> l).
Proof.
  apply mapM_Some_2, Forall2_fmap_r, Forall_Forall2_diag, Forall_forall.
  intros i _. apply Values_elem_Some.
Qed.

(** The list that a first [Values] builds has one entry for each ordinal
    below the stored count, in order: the entry of [i] holds [i], the
    registered type, and the canonical name of [i], or its alternate name
    when [alt] is set and the type has a table (the empty string for an
    ordinal that the table lacks). *)
Theorem Values_fresh_list (tr' : EnumRegistry) (vals : list EnumValue) :
  map_get (Vals tr) enumName = None ->
  Registry.Values tr enumName alt = Some (tr', vals) ->
  exists n : Z,
    Registry.Prop_ tr enumName "N" = Some (PInt64 n) /\ 0 <= n /\
    List.length vals = Z.to_nat n /\
    forall i, 0 <= i < n ->
      exists et : EnumType,
        RegistryExt.Enum tr enumName = Some et /\
        vals !! Z.to_nat i =
          Some (value_entry (Registry.AltStrings tr enumName) et alt i).
Proof.
  intros Hc. unfold Registry.Values. rewrite Hc.
  destruct (Registry.Prop_ tr enumName "N") as [[n| | |]|]; try done.
  simpl. destruct (Z.ltb_spec n 0) as [|Hn]; [done|]. simpl.
  intros H. exists n. split; [done|]. split; [done|].
  destruct (map_get (Enums tr) enumName) as [et|] eqn:Het.
  - rewrite Values_mapM_Some in H. simpl in H.
    destruct (map_put (Vals tr) enumName _) as [vs|]; [|done].
    simpl in H. injection H as <- <-.
    split; [by rewrite length_fmap, length_seqZ|].
    intros i Hi. exists et. split; [done|].
    rewrite list_lookup_fmap, lookup_seqZ_lt by lia. simpl.
    do 2 f_equal. lia.
  - destruct (decide (n = 0)) as [->|Hn0].
    + simpl in H. destruct (map_put (Vals tr) enumName _) as [vs|]; [|done].
      simpl in H. injection H as <- <-. split; [done|]. intros i Hi. lia.
    + rewrite seqZ_cons in H by lia. done.
Qed.

(** A [Values] that does not find the list cached panics in each of these
    cases: the name has no ["N"] of type [int64] (as a name that was never
    registered), the count is negative, the count is positive and the name
    has no type in [tr.Enums], or [tr.Vals] is [nil]. *)
Theorem Values_panics :
  map_get (Vals tr) enumName = None ->
  (forall n, Registry.Prop_ tr enumName "N" <> Some (PInt64 n)) \/
  (exists n, Registry.Prop_ tr enumName "N" = Some (PInt64 n) /\
     (n < 0 \/ (0 < n /\ RegistryExt.Enum tr enumName = None) \/ Vals tr = None)) ->
  Registry.Values tr enumName alt = None.
Proof.
  intros Hc. unfold Registry.Values, RegistryExt.Enum. rewrite Hc.
  destruct (Registry.Prop_ tr enumName "N") as [[n| | |]|]; try done.
  intros [Hno|(n' & [= <-] & Hcase)]; [by destruct (Hno n)|].
  simpl. destruct (Z.ltb_spec n 0) as [|Hn]; [done|]. simpl.
  destruct Hcase as [Hneg|[[Hpos Hty]|Hv]]; [lia| |].
  - rewrite Hty, seqZ_cons by lia. done.
  - rewrite Hv. simpl. by destruct (mapM _ _).
Qed.

End ValuesFacts.

Lemma Values_fresh_list_witness :
  List.length (snd reg_test_values) = 3%nat /\
  snd reg_test_values !! 1%nat =
    Some {| Name := "flag1"; Value_ := 1; Type_ := TestFlags |}.
Proof.
  destruct (Values_fresh_list reg_test "kit.TestFlags" true
              (fst reg_test_values) (snd reg_test_values))
    as (n & HN & Hn & Hlen & Hent); [by vm_compute | by vm_compute |].
  assert (n = 3) as -> by (vm_compute in HN; by injection HN).
  split; [exact Hlen|].
  destruct (Hent 1 ltac:(lia)) as (et & Het & H1).
  assert (et = TestFlags) as -> by (vm_compute in Het; by injection Het).
  exact H1.
Defined.

Lemma Values_panics_witness :
  Registry.Values zero_registry "kit.TestFlags" false = None /\
  Registry.Values reg_test "kit.Other" false = None.
Proof.
  split.
  - apply Values_panics; [reflexivity|]. left. intros n Hn. discriminate Hn.
  - apply Values_panics; [reflexivity|]. left. intros n Hn. discriminate Hn.
Defined.

(** ** The registries that the program builds *)








(** ** Alternate strings *)

Lemma range_find_Some (kvs : list (Z * string)) (str : string) (i : Z) :
  RegistryExt.range_find kvs str = Some i -> (i, str) ∈ kvs.
Proof.
  induction kvs as [|[j v] kvs IH]; simpl; [done|].
  destruct (String.eqb_spec v str) as [->|_].
  - intros [= ->]. left.
  - intros H. right. by apply IH.
Qed.

Lemma range_find_None (kvs : list (Z * string)) (str : string) :
  RegistryExt.range_find kvs str = None ->
  forall i, (i, str) ∉ kvs.
Proof.
  induction kvs as [|[j v] kvs IH]; simpl; intros H i Hin.
  - by apply elem_of_nil in Hin.
  - destruct (String.eqb_spec v str) as [->|Hne]; [done|].
    apply elem_of_cons in Hin as [[= -> ->]|Hin]; [done|]. by apply (IH H i).
Qed.

Section RangeFacts.
Variable range_alts : gmap Z string -> list (Z * string).
Hypothesis range_alts_perm : forall m, range_alts m ≡ₚ map_to_list m.

Lemma range_alts_elem (m : gmap Z string) (i : Z) (v : string) :
  (i, v) ∈ range_alts m <-> m !! i = Some v.
Proof. rewrite range_alts_perm. apply elem_of_map_to_list. Qed.

Lemma SetEnumValueFromAltString_result_holds (tr : EnumRegistry) (eval : Value) (str : string) :
  match RegistryExt.SetEnumValueFromAltString range_alts tr eval str with
  | (eval', Some _) =>
      eval' = eval /\
      (vPtr eval = false \/
       match Registry.AltStrings tr (ShortTypeName (vType eval)) with
       | None => True
       | Some alts => forall i, alts !! i <> Some str
       end)
  | (eval', None) =>
      vPtr eval = true /\
      exists (alts : gmap Z string) (i : Z),
        Registry.AltStrings tr (ShortTypeName (vType eval)) = Some alts /\
        alts !! i = Some str /\
        eval' = store eval (Int.wrap (Bits (vType eval)) i)
  end.
Proof.
  unfold RegistryExt.SetEnumValueFromAltString.
  destruct (vPtr eval) eqn:Hp; simpl; [|by split; [|left]].
  destruct (Registry.AltStrings tr _) as [alts|] eqn:Ha; [|by split; [|right]].
  destruct (RegistryExt.range_find (range_alts alts) str) as [i|] eqn:Hf.
  - unfold SetEnumValueFromInt64. rewrite Hp. simpl. split; [done|].
    exists alts, i. split; [done|]. split; [|done].
    by apply range_alts_elem, range_find_Some.
  - split; [done|]. right. intros i Hi.
    by apply (range_find_None _ _ Hf i), range_alts_elem.
Qed.

(** Whatever the order of the [range]: when [SetEnumValueFromAltString]
    returns an error the enum is as it was, and the argument is no pointer
    or the type has no table or no entry of the table is the string; when
    it returns [nil] the enum is set to an ordinal whose alternate name is
    the string. *)
Theorem SetEnumValueFromAltString_result (tr : EnumRegistry) (eval : Value) (str : string) :
  match RegistryExt.SetEnumValueFromAltString range_alts tr eval str with
  | (eval', Some _) =>
      eval' = eval /\
      (vPtr eval = false \/
       match Registry.AltStrings tr (ShortTypeName (vType eval)) with
       | None => True
       | Some alts => forall i, alts !! i <> Some str
       end)
  | (eval', None) =>
      vPtr eval = true /\
      exists (alts : gmap Z string) (i : Z),
        Registry.AltStrings tr (ShortTypeName (vType eval)) = Some alts /\
        alts !! i = Some str /\
        eval' = store eval (Int.wrap (Bits (vType eval)) i)
  end.
Proof. exact (SetEnumValueFromAltString_result_holds tr eval str). Qed.

(** The alternate name that [AddEnumAltLower] stored for an ordinal, read
    with [EnumInt64ToAltString], sets a pointer to the enum back to that
    ordinal, when no other ordinal below the count has the same alternate
    name. *)
Theorem AltString_roundtrip (tr tr' : EnumRegistry) (en : Value) (bitFlag : bool)
    (props : option (gmap string PropVal)) (prefix : string) (typ : EnumType)
    (eval : Value) (i : Z) :
  Registry.AddEnumAltLower tr en bitFlag props prefix = Some (tr', typ) ->
  vPtr eval = true -> vType eval = typ ->
  0 <= i < EnumIfaceToInt64 en -> i < 2 ^ (Bits typ - 1) ->
  (forall j, 0 <= j < EnumIfaceToInt64 en ->
     alt_table typ prefix (EnumIfaceToInt64 en) !! j =
       alt_table typ prefix (EnumIfaceToInt64 en) !! i -> j = i) ->
  RegistryExt.SetEnumValueFromAltString range_alts tr' eval
    (RegistryExt.EnumInt64ToAltString tr' i (ShortTypeName typ)) =
    (store eval i, None).
Proof.
  intros H Hp Ht Hi Hfit Hinj.
  apply AddEnumAltLower_stores in H as [_ Ha].
  set (tbl := alt_table typ prefix (EnumIfaceToInt64 en)) in *.
  assert (Hin : forall j, is_Some (tbl !! j) -> 0 <= j < EnumIfaceToInt64 en).
  { intros j [s Hs]. unfold tbl in Hs. rewrite alt_table_lookup in Hs.
    by destruct (decide (0 <= j < EnumIfaceToInt64 en)). }
  assert (Hi' : is_Some (tbl !! i)).
  { unfold tbl. rewrite alt_table_lookup, decide_True by done. by eexists. }
  destruct Hi' as [s Hs].
  unfold RegistryExt.EnumInt64ToAltString. rewrite Ha, Hs. simpl.
  pose proof (SetEnumValueFromAltString_result_holds tr' eval s) as Hr.
  destruct (RegistryExt.SetEnumValueFromAltString range_alts tr' eval s)
    as [eval' [e|]].
  - destruct Hr as [_ [Hnp|Hno]]; [congruence|].
    rewrite Ht, Ha in Hno. by destruct (Hno i).
  - destruct Hr as (_ & alts & j & Ha' & Hj & ->).
    rewrite Ht, Ha in Ha'. injection Ha' as <-.
    assert (j = i) as ->.
    { apply Hinj; [apply Hin; by eexists|]. by rewrite Hj, Hs. }
    rewrite Ht. by rewrite wrap_small by lia.
Qed.

(** Given a pointer to a type with [FromString], the alternate-first set
    never returns an error; and when no alternate name of the type is the
    string, it does what [SetEnumValueFromString] does. *)
Theorem SetEnumValueFromStringAltFirst_result (tr : EnumRegistry) (eval : Value)
    (str : string) :
  vPtr eval = true -> HasFromString (vType eval) = true ->
  snd (RegistryExt.SetEnumValueFromStringAltFirst range_alts tr eval str) = None /\
  (match Registry.AltStrings tr (ShortTypeName (vType eval)) with
   | None => True
   | Some alts => forall i, alts !! i <> Some str
   end ->
   RegistryExt.SetEnumValueFromStringAltFirst range_alts tr eval str =
     SetEnumValueFromString eval str).
Proof.
  intros Hp Hm. unfold RegistryExt.SetEnumValueFromStringAltFirst.
  pose proof (SetEnumValueFromAltString_result_holds tr eval str) as Hr.
  destruct (RegistryExt.SetEnumValueFromAltString range_alts tr eval str)
    as [eval' [e|]].
  - destruct Hr as [-> _]. split; [|done].
    by rewrite SetEnumValueFromString_nil.
  - split; [done|]. intros Hno.
    destruct Hr as (_ & alts & i & Ha & Hi & _). rewrite Ha in Hno.
    by destruct (Hno i).
Qed.

Lemma AltFirst_step_eq (tr : EnumRegistry) (et : EnumType) (l : list string)
    (st : Value * Z * error) :
  Registry.AltStrings tr (ShortTypeName et) = None ->
  vPtr (fst (fst st)) = true -> vType (fst (fst st)) = et ->
  foldl (RegistryExt.BitFlagsFromStringAltFirst_step range_alts tr) st l =
  foldl BitFlagsTypeFromString_step st l.
Proof.
  intros Ha. revert st. induction l as [|flg l IH]; intros [[evv acc] err] Hp Ht; [done|].
  cbn [foldl]. simpl in Hp, Ht.
  assert (Hstep : RegistryExt.BitFlagsFromStringAltFirst_step range_alts tr
                    (evv, acc, err) flg =
                  BitFlagsTypeFromString_step (evv, acc, err) flg).
  { unfold RegistryExt.BitFlagsFromStringAltFirst_step, BitFlagsTypeFromString_step,
      RegistryExt.SetEnumValueFromStringAltFirst,
      RegistryExt.SetEnumValueFromAltString.
    by rewrite Hp, Ht, Ha. }
  rewrite Hstep. apply IH.
  - unfold BitFlagsTypeFromString_step, SetEnumValueFromString. rewrite Hp. simpl.
    by destruct (HasFromString (vType evv)).
  - unfold BitFlagsTypeFromString_step, SetEnumValueFromString. rewrite Hp. simpl.
    by destruct (HasFromString (vType evv)).
Qed.

Lemma BitFlagsFromStringAltFirst_no_table_holds (tr : EnumRegistry) (bflg : Z)
    (str : string) (et : EnumType) (n : Z) :
  Registry.AltStrings tr (ShortTypeName et) = None ->
  RegistryExt.BitFlagsFromStringAltFirst range_alts tr bflg str et n =
    BitFlagsTypeFromString bflg str et n.
Proof.
  intros Ha. unfold RegistryExt.BitFlagsFromStringAltFirst, BitFlagsTypeFromString.
  by rewrite (AltFirst_step_eq tr et).
Qed.

(** For a type without a table of alternate names, the alternate-first
    decode is the plain decode, on every string. *)
Theorem BitFlagsFromStringAltFirst_no_table (tr : EnumRegistry) (bflg : Z)
    (str : string) (et : EnumType) (n : Z) :
  Registry.AltStrings tr (ShortTypeName et) = None ->
  RegistryExt.BitFlagsFromStringAltFirst range_alts tr bflg str et n =
    BitFlagsTypeFromString bflg str et n.
Proof. exact (BitFlagsFromStringAltFirst_no_table_holds tr bflg str et n). Qed.

End RangeFacts.

Lemma map_to_list_perm {K V} `{Countable K} (m : gmap K V) :
  map_to_list m ≡ₚ map_to_list m.
Proof. reflexivity. Qed.

Lemma SetEnumValueFromAltString_result_witness :
  fst (RegistryExt.SetEnumValueFromAltString map_to_list reg_test (New TestFlags) "nope")
    = New TestFlags.
Proof.
  pose proof (SetEnumValueFromAltString_result map_to_list map_to_list_perm
                reg_test (New TestFlags) "nope") as H.
  destruct (RegistryExt.SetEnumValueFromAltString map_to_list reg_test
              (New TestFlags) "nope") as [eval' [e|]] eqn:E.
  - by destruct H as [-> _].
  - vm_compute in E. discriminate E.
Defined.

Lemma AltString_roundtrip_witness :
  RegistryExt.EnumInt64ToAltString reg_test 2 "kit.TestFlags" = "flag2" /\
  RegistryExt.SetEnumValueFromAltString map_to_list reg_test (New TestFlags) "flag2"
    = (store (New TestFlags) 2, None).
Proof.
  split; [reflexivity|].
  apply (AltString_roundtrip map_to_list map_to_list_perm zero_registry reg_test
           TestFlagsN false None "Test" TestFlags (New TestFlags) 2).
  - by vm_compute.
  - reflexivity.
  - reflexivity.
  - by vm_compute.
  - by vm_compute.
  - intros j Hj. change (EnumIfaceToInt64 TestFlagsN) with 3 in *.
    assert (j = 0 \/ j = 1 \/ j = 2) as [-> | [-> | ->]] by lia;
      [vm_compute; discriminate | vm_compute; discriminate | done].
Defined.

Lemma SetEnumValueFromStringAltFirst_result_witness :
  RegistryExt.SetEnumValueFromStringAltFirst map_to_list reg_test (New TestFlags) "Bogus"
    = (New TestFlags, None).
Proof.
  destruct (SetEnumValueFromStringAltFirst_result map_to_list map_to_list_perm
              reg_test (New TestFlags) "Bogus" eq_refl eq_refl) as [_ H].
  rewrite H; [reflexivity|].
  change (Registry.AltStrings reg_test (ShortTypeName (vType (New TestFlags))))
    with (Some (alt_table TestFlags "Test" 3)).
  intros i Hi. rewrite alt_table_lookup in Hi.
  destruct (decide (0 <= i < 3)) as [Hr|]; [|done].
  assert (i = 0 \/ i = 1 \/ i = 2) as [-> | [-> | ->]] by lia;
    vm_compute in Hi; discriminate Hi.
Defined.

Lemma BitFlagsFromStringAltFirst_no_table_witness :
  RegistryExt.BitFlagsFromStringAltFirst map_to_list reg_once 0
    "TestFlag1|TestFlag2" TestFlags 3 = (6, None).
Proof.
  rewrite (BitFlagsFromStringAltFirst_no_table map_to_list reg_once 0
             "TestFlag1|TestFlag2" TestFlags 3); by vm_compute.
Defined.

(** ** [AllTagged] *)

Section TaggedFacts.
Variable range_enums : gmap string EnumType -> list (string * EnumType).
Hypothesis range_enums_perm : forall m, range_enums m ≡ₚ map_to_list m.

Lemma tagged_fold (tr : EnumRegistry) (key : string) (l : list (string * EnumType))
    (tl : list EnumType) (typ : EnumType) :
  typ ∈ foldl (fun (tl : list EnumType) (kv : string * EnumType) =>
                 match Registry.Prop_ tr (ShortTypeName (snd kv)) key with
                 | None => tl
                 | Some _ => tl ++ [snd kv]
                 end) tl l <->
  typ ∈ tl \/
  exists name, (name, typ) ∈ l /\ is_Some (Registry.Prop_ tr (ShortTypeName typ) key).
Proof.
  revert tl. induction l as [|[nm t] l IH]; intros tl.
  - cbn [foldl]. split; [by left|]. intros [H|(name & H & _)]; [done|].
    by apply elem_of_nil in H.
  - cbn [foldl]. rewrite IH. cbn [snd]. split.
    + intros [Hin|(name & Hin & Hp)].
      * destruct (Registry.Prop_ tr (ShortTypeName t) key) as [v|] eqn:E.
        -- apply elem_of_app in Hin as [Hin|Hin%list_elem_of_singleton]; [by left|].
           subst t. right. exists nm. split; [left|]. by rewrite E.
        -- by left.
      * right. exists name. split; [by right|done].
    + intros [Hin|(name & Hin & Hp)].
      * left. destruct (Registry.Prop_ tr (ShortTypeName t) key); [|done].
        apply elem_of_app. by left.
      * apply elem_of_cons in Hin as [[= -> ->]|Hin].
        -- left. destruct Hp as [v Hv]. rewrite Hv.
           apply elem_of_app. right. by apply list_elem_of_singleton.
        -- right. by exists name.
Qed.

(** [AllTagged(key)] lists the types that are stored in the registry, under
    whatever name, and have the property [key] under their own short
    name, and no other type. *)
Theorem AllTagged_elem (tr : EnumRegistry) (key : string) (typ : EnumType) :
  typ ∈ RegistryExt.AllTagged range_enums tr key <->
  exists name : string,
    RegistryExt.Enum tr name = Some typ /\
    is_Some (Registry.Prop_ tr (ShortTypeName typ) key).
Proof.
  unfold RegistryExt.AllTagged, RegistryExt.Enum.
  destruct (Enums tr) as [es|]; simpl.
  - rewrite tagged_fold. split.
    + intros [H|(name & Hin & Hp)]; [by apply elem_of_nil in H|].
      exists name. split; [|done].
      by apply elem_of_map_to_list; rewrite <- range_enums_perm.
    + intros (name & Hn & Hp). right. exists name. split; [|done].
      rewrite range_enums_perm. by apply elem_of_map_to_list.
  - split; [intros H; by apply elem_of_nil in H|]. by intros (name & Hn & _).
Qed.

End TaggedFacts.

Lemma AllTagged_elem_witness :
  TestFlags ∈ RegistryExt.AllTagged map_to_list reg_test "AltStrings" /\
  TestFlags ∉ RegistryExt.AllTagged map_to_list reg_test "BitFlag".
Proof.
  split.
  - apply (AllTagged_elem map_to_list map_to_list_perm).
    exists "kit.TestFlags". split; [reflexivity|]. vm_compute. by eexists.
  - intros H. apply (AllTagged_elem map_to_list map_to_list_perm) in H
      as (name & _ & [v Hv]). vm_compute in Hv. discriminate Hv.
Defined.

(** ** [SetAnyEnumValueFromString] on a bit-flag type *)

Lemma lor_below_pow2 (a b n : Z) :
  0 <= a < 2 ^ n -> 0 <= b < 2 ^ n -> 0 <= Z.lor a b < 2 ^ n.
Proof.
  intros Ha Hb. split; [apply Z.lor_nonneg; lia|].
  destruct (decide (a = 0)) as [->|Ha0]; [rewrite Z.lor_0_l; lia|].
  destruct (decide (b = 0)) as [->|Hb0]; [rewrite Z.lor_0_r; lia|].
  assert (0 < Z.lor a b).
  { assert (0 <= Z.lor a b) by (apply Z.lor_nonneg; lia).
    destruct (decide (Z.lor a b = 0)) as [H0|]; [|lia].
    apply Z.lor_eq_0_iff in H0. lia. }
  apply Z.log2_lt_pow2; [done|].
  rewrite Z.log2_lor by lia.
  apply Z.max_lub_lt; apply Z.log2_lt_pow2; lia.
Qed.

Lemma foldl_Set_bound (l : list Z) (acc n : Z) :
  n <= 63 -> Forall (fun i => 0 <= i < n) l -> 0 <= acc < 2 ^ n ->
  0 <= foldl bitflag.Set_ acc l < 2 ^ n.
Proof.
  intros Hn Hl. revert acc. induction Hl as [|i l Hi Hl IH]; intros acc Hacc; [done|].
  cbn [foldl]. apply IH. unfold bitflag.Set_. rewrite mask_pow2 by lia.
  apply lor_below_pow2; [done|]. split; [apply Z.pow_nonneg; lia|].
  apply Z.pow_lt_mono_r; lia.
Qed.

(** For a pointer to an enum of a registered bit-flag type that has no
    table of alternate names, and a string of canonical names joined by
    ["|"], [SetAnyEnumValueFromString] returns [nil] and leaves in the enum
    the bits of the named ordinals and no other: what the enum held before
    is gone. *)
Theorem SetAnyEnumValueFromString_bitflag
    (range_alts : gmap Z string -> list (Z * string))
    (tr : EnumRegistry) (eval : Value) (n : Z) (l : list Z) :
  vPtr eval = true ->
  Registry.IsBitFlag tr (vType eval) = true ->
  Registry.AltStrings tr (ShortTypeName (vType eval)) = None ->
  decodable (vType eval) n = true -> n < Bits (vType eval) ->
  l <> [] -> Forall (fun i => 0 <= i < n) l ->
  RegistryExt.SetAnyEnumValueFromString range_alts tr eval
    (String.concat "|" (map (fun i => EnumInt64ToString i (vType eval)) l)) =
    (store eval (bitsOf l), None).
Proof.
  intros Hp Hbf Ha Hdec Hw Hne Hl.
  unfold RegistryExt.SetAnyEnumValueFromString. rewrite Hp, Hbf. simpl.
  rewrite BitFlagsFromStringAltFirst_no_table_holds by done.
  destruct (BitFlagsTypeFromString_names_holds (vType eval) n 0 l Hdec Hne Hl) as [Hd _].
  destruct (decodable_inv _ _ Hdec) as (_ & _ & _ & Hn).
  assert (Heq : BitFlagsTypeFromString 0
            (String.concat "|" (map (fun i => EnumInt64ToString i (vType eval)) l))
            (vType eval) (Registry.NVals tr eval) = (foldl bitflag.Set_ 0 l, None)).
  { rewrite <- Hd. reflexivity. }
  rewrite Heq. unfold SetEnumValueFromInt64. rewrite Hp. simpl.
  unfold bitsOf. f_equal. f_equal. apply wrap_small.
  assert (0 <= n) by (destruct l as [|i l']; [done|];
                      apply Forall_cons in Hl as [? _]; lia).
  pose proof (foldl_Set_bound l 0 n Hn Hl) as Hb.
  assert (0 <= 0 < 2 ^ n) by (split; [done|]; apply Z.pow_pos_nonneg; lia).
  assert (2 ^ n <= 2 ^ (Bits (vType eval) - 1)) by (apply Z.pow_le_mono_r; lia).
  specialize (Hb ltac:(done)). lia.
Qed.

Lemma SetAnyEnumValueFromString_bitflag_witness :
  RegistryExt.SetAnyEnumValueFromString map_to_list reg_once
    {| vPtr := true; vType := TestFlags; vInt := 1 |} "TestFlag2|TestFlag1" =
    ({| vPtr := true; vType := TestFlags; vInt := 6 |}, None).
Proof.
  apply (SetAnyEnumValueFromString_bitflag map_to_list reg_once
           {| vPtr := true; vType := TestFlags; vInt := 1 |} 3 [2; 1]).
  - reflexivity.
  - by vm_compute.
  - by vm_compute.
  - by vm_compute.
  - by vm_compute.
  - discriminate.
  - repeat constructor; by vm_compute.
Defined.

(** ** Text out and in again *)

(** The text of an enum whose type is not registered as bit flags is what
    [String] prints; for a type with distinct canonical names and an
    ordinal of the table, setting a fresh enum from that text gives the
    ordinal back. *)
Theorem EnumMarshalText_scalar (Enums_ : EnumRegistry) (eval : Value) :
  Registry.IsBitFlag Enums_ (vType eval) = false ->
  HasString (vType eval) = true -> HasFromString (vType eval) = true ->
  NoDup (Stringer.names (vType eval)) ->
  0 <= vInt eval < Z.of_nat (Stringer.count (vType eval)) ->
  EnumMarshalText Enums_ eval = (Stringer.String_ (vType eval) (vInt eval), None) /\
  SetEnumValueFromString (New (vType eval)) (fst (EnumMarshalText Enums_ eval)) =
    (store (New (vType eval)) (vInt eval), None).
Proof.
  intros Hbf Hs Hf Hnd Hi.
  assert (H : EnumMarshalText Enums_ eval =
              (Stringer.String_ (vType eval) (vInt eval), None)).
  { unfold EnumMarshalText, IsBitFlag_TypeOf, EnumIfaceToString.
    rewrite Hbf, Hs, append_nil_l. by destruct (vPtr eval). }
  split; [done|]. rewrite H. cbn [fst].
  rewrite SetEnumValueFromString_nil by done. cbn [vType vInt New].
  by rewrite FromString_String.
Qed.

Lemma EnumMarshalText_scalar_witness :
  EnumMarshalText reg_test {| vPtr := false; vType := TestFlags; vInt := 2 |} =
    ("TestFlag2", None) /\
  SetEnumValueFromString (New TestFlags) "TestFlag2" = (store (New TestFlags) 2, None).
Proof.
  apply (EnumMarshalText_scalar reg_test
           {| vPtr := false; vType := TestFlags; vInt := 2 |}).
  - by vm_compute.
  - reflexivity.
  - reflexivity.
  - apply (bool_decide_unpack _). by vm_compute.
  - by vm_compute.
Defined.

(** Decode and encode again puts a list of names in order: for canonical
    names of ordinals below the count, in any order and with repeats, the
    encode of the decoded pattern joins the names of the same ordinals,
    each once, in ascending order. *)
Theorem encode_decode_normalises (en : Value) (l : list Z) :
  decodable (vType en) (EnumIfaceToInt64 en) = true ->
  l <> [] -> Forall (fun i => 0 <= i < EnumIfaceToInt64 en) l ->
  exists l' : list Z,
    BitFlagsToString
      (fst (BitFlagsTypeFromString 0
              (String.concat "|" (map (fun i => EnumInt64ToString i (vType en)) l))
              (vType en) (EnumIfaceToInt64 en))) en =
      String.concat "|" (map (fun i => EnumInt64ToString i (vType en)) l') /\
    StronglySorted Z.lt l' /\
    forall i, i ∈ l' <-> i ∈ l.
Proof.
  intros Hdec Hne Hl.
  destruct (decodable_inv _ _ Hdec) as (He & _ & _ & Hn).
  destruct (BitFlagsTypeFromString_names_holds _ _ 0 l Hdec Hne Hl) as [Hd _].
  rewrite Hd. cbn [fst]. fold (bitsOf l).
  exists (set_ordinals (bitsOf l) (EnumIfaceToInt64 en)). split; [|split].
  - by apply BitFlagsToString_concat.
  - apply StronglySorted_filter, StronglySorted_seqZ.
  - intros i. by apply set_ordinals_bitsOf.
Qed.

Lemma encode_decode_normalises_witness :
  BitFlagsToString
    (fst (BitFlagsTypeFromString 0 "NodeAdded|IsField|NodeAdded" Flags 16)) FlagsN
  = "IsField|NodeAdded".
Proof.
  destruct (encode_decode_normalises FlagsN [5; 0; 5]) as (l' & H & _ & _).
  - by vm_compute.
  - discriminate.
  - repeat constructor; by vm_compute.
  - reflexivity.
Defined.
